(** * The scan-callback bridge of go-yara ([rules_callback.go])

    A shallow embedding of the callback container, the exported dispatcher
    [scanCallbackFunc] and the match recorder [MatchRules], followed by the
    properties of the bridge that the specification states about them. *)

From Stdlib Require Import ZArith Lia.
From stdpp Require Import base option list gmap strings fin_maps.

Local Open Scope Z_scope.

(** ** Values that cross the cgo boundary *)

(** A C address ([unsafe.Pointer], [*C.YR_RULE], ...); [NULL] is address 0. *)
Definition ptr := N.
Definition NULL : ptr := 0%N.

(** A Go [error]: [None] is the nil error. *)
Definition error := option string.

(** Constants of [yara.h] (libyara is not part of this repository). *)
Definition CALLBACK_MSG_RULE_MATCHING : Z := 1.
Definition CALLBACK_MSG_RULE_NOT_MATCHING : Z := 2.
Definition CALLBACK_MSG_SCAN_FINISHED : Z := 3.
Definition CALLBACK_MSG_IMPORT_MODULE : Z := 4.
Definition CALLBACK_MSG_MODULE_IMPORTED : Z := 5.

Definition CALLBACK_CONTINUE : Z := 0.
Definition CALLBACK_ABORT : Z := 1.
Definition CALLBACK_ERROR : Z := 2.

(** [ScanContext], [Rule] and [Object] only wrap a C pointer. *)
Record ScanContext := mkScanContext { sc_cptr : ptr }.
Record Rule := mkRule { rule_cptr : ptr }.
Record Object := mkObject { obj_cptr : ptr }.

(** The fields of [YR_MODULE_IMPORT] that the bridge reads and writes. *)
Record YR_MODULE_IMPORT := mkModuleImport {
  module_name : string;
  module_data : ptr;
  module_data_size : nat
}.

(** ** The C heap: [calloc] and [free] *)

Module CHeap.

(** Live blocks by address, the next address [calloc] hands out (never
    [NULL]), the bytes it can still hand out, and the arguments of every
    [free] call so far (a ghost trace, most recent call last). *)
Record t := mk {
  blocks : gmap ptr (list Byte.byte);
  brk : positive;
  avail : nat;
  freed : list ptr
}.

(** [calloc(nmemb, size)]: a fresh zero-filled block, or [NULL] when the
    request exceeds what is available. *)
Definition calloc (nmemb size : nat) (h : t) : ptr * t :=
  let n := (nmemb * size)%nat in
  if bool_decide (n ≤ avail h)%nat then
    (Npos (brk h),
     {| blocks := <[Npos (brk h) := replicate n Byte.x00]> (blocks h);
        brk := (brk h + Pos.of_succ_nat n)%positive;
        avail := (avail h - n)%nat;
        freed := freed h |})
  else (NULL, h).

(** [free(p)]. [free(NULL)] does nothing but is recorded all the same. *)
Definition free (p : ptr) (h : t) : t :=
  {| blocks := delete p (blocks h);
     brk := brk h;
     avail := (avail h + from_option length 0%nat (blocks h !! p))%nat;
     freed := freed h ++ [p] |}.

(** Go's [copy(dst, src)] where [dst] is a slice whose header was pointed
    at address [data] with length [len]: [min len (length src)] bytes are
    stored at [data]. Storing through [NULL], or through an address that
    is not a live block of at least that size, is a memory fault
    ([None]). *)
Definition copy (data : ptr) (len : nat) (src : list Byte.byte) (h : t)
  : option t :=
  let n := (len `min` length src)%nat in
  match blocks h !! data with
  | Some old =>
      if bool_decide (data ≠ NULL ∧ n ≤ length old)%nat then
        Some {| blocks := <[data := take n src ++ drop n old]> (blocks h);
                brk := brk h; avail := avail h; freed := freed h |}
      else None
  | None => None
  end.

(** The bytes at [data .. data+len), as the engine reads them. *)
Definition read (data : ptr) (len : nat) (h : t) : option (list Byte.byte) :=
  match blocks h !! data with
  | Some bs => if bool_decide (len ≤ length bs)%nat then Some (take len bs) else None
  | None => None
  end.

End CHeap.

(** ** The callback interfaces *)

(** One class per Go interface, over the dynamic type [T] of the callback
    object; a method takes the receiver's state and returns its new state
    with the method's results. *)
Class ScanCallbackMatch (T : Type) :=
  RuleMatching : ScanContext → Rule → T → T * (bool * error).
Class ScanCallbackNoMatch (T : Type) :=
  RuleNotMatching : ScanContext → Rule → T → T * (bool * error).
Class ScanCallbackFinished (T : Type) :=
  ScanFinished : ScanContext → T → T * (bool * error).
Class ScanCallbackModuleImport (T : Type) :=
  ImportModule : ScanContext → string → T → T * (list Byte.byte * bool * error).
Class ScanCallbackModuleImportFinished (T : Type) :=
  ModuleImported : ScanContext → Object → T → T * (bool * error).

(** [ScanCallback] is [interface{}]: a value together with the method set of
    its dynamic type. A type assertion [sc.(ScanCallbackMatch)] succeeds
    exactly when the corresponding field is [Some]. *)
Record ScanCallback (T : Type) := mkScanCallback {
  self : T;
  asMatch : option (ScanCallbackMatch T);
  asNoMatch : option (ScanCallbackNoMatch T);
  asFinished : option (ScanCallbackFinished T);
  asModuleImport : option (ScanCallbackModuleImport T);
  asModuleImportFinished : option (ScanCallbackModuleImportFinished T)
}.
Arguments mkScanCallback {T}.
Arguments self {T}.
Arguments asMatch {T}.
Arguments asNoMatch {T}.
Arguments asFinished {T}.
Arguments asModuleImport {T}.
Arguments asModuleImportFinished {T}.

(** The callback object after one of its methods has run. *)
Definition with_self {T} (sc : ScanCallback T) (x : T) : ScanCallback T :=
  mkScanCallback x (asMatch sc) (asNoMatch sc) (asFinished sc)
    (asModuleImport sc) (asModuleImportFinished sc).

(** A method call made by the dispatcher (ghost trace). *)
Inductive Call :=
  | CallRuleMatching (s : ScanContext) (r : Rule)
  | CallRuleNotMatching (s : ScanContext) (r : Rule)
  | CallScanFinished (s : ScanContext)
  | CallImportModule (s : ScanContext) (name : string)
  | CallModuleImported (s : ScanContext) (o : Object).

(** ** The callback container *)

(** [scanCallbackContainer]: the embedded [ScanCallback], the malloc'd C
    pointers, and whether a finalizer is registered for the container with
    the Go runtime. *)
Record scanCallbackContainer (T : Type) := mkContainer {
  cb : ScanCallback T;
  cdata : list ptr;
  finalizer : bool
}.
Arguments mkContainer {T}.
Arguments cb {T}.
Arguments cdata {T}.
Arguments finalizer {T}.

Definition makeScanCallbackContainer {T} (sc : ScanCallback T)
  : scanCallbackContainer T :=
  {| cb := sc; cdata := []; finalizer := true |}.

Definition addCPointer {T} (c : scanCallbackContainer T) (p : ptr)
  : scanCallbackContainer T :=
  {| cb := cb c; cdata := cdata c ++ [p]; finalizer := finalizer c |}.

(** [finalize]: [free] on every stored pointer in order, then [cdata = nil]
    and the finalizer is cleared. *)
Definition finalize {T} (c : scanCallbackContainer T) (h : CHeap.t)
  : scanCallbackContainer T * CHeap.t :=
  ({| cb := cb c; cdata := []; finalizer := false |},
   foldl (λ h p, CHeap.free p h) h (cdata c)).

(** ** The match recorder *)

(** Dynamic values found in a rule's metadata map
    ([map[string]interface{}]): Go's [int] (64 bits wide on amd64 and
    arm64), [int32], [bool] and [string]. *)
Inductive MetaValue :=
  | VInt (i : Z)
  | VInt32 (i : Z)
  | VBool (b : bool)
  | VString (s : string).

(** Go's conversion [int32(i)]: the low 32 bits, read as two's complement. *)
Definition int32 (i : Z) : Z := (i + 2 ^ 31) mod 2 ^ 32 - 2 ^ 31.

(** The number carried by a metadata value, when it is an integer. *)
Definition meta_number (v : MetaValue) : option Z :=
  match v with
  | VInt i | VInt32 i => Some i
  | _ => None
  end.

(** The width in bits of an integer metadata value. *)
Definition meta_width (v : MetaValue) : option Z :=
  match v with
  | VInt _ => Some 64
  | VInt32 _ => Some 32
  | _ => None
  end.

Section MatchRecorder.

(** [MatchString] and the accessors of [*Rule] are declared in other files
    of the package; they are parameters here. [Metas] is what the engine
    reports for the rule's metadata, integers as Go [int]. *)
Context {MatchString : Type}.
Context (Identifier Namespace : Rule → string).
Context (Tags : Rule → list string).
Context (Metas : Rule → gmap string MetaValue).
Context (getMatchStrings : Rule → ScanContext → list MatchString).

(** [MatchRule], with the fields the composite literal in [RuleMatching]
    assigns. *)
Record MatchRule := mkMatchRule {
  mr_Rule : string;
  mr_Namespace : string;
  mr_Tags : list string;
  mr_Meta : gmap string MetaValue;
  mr_Strings : list MatchString
}.

Definition MatchRules := list MatchRule.

(** The loop [for s := range metas { if i, ok := metas[s].(int); ok
    { metas[s] = int32(i) } }]: every key present when the loop starts is
    visited once; the body reads the map as it is then and overwrites the
    entry in place. *)
Definition convert_metas (metas : gmap string MetaValue)
  : gmap string MetaValue :=
  map_fold (λ s _ acc,
              match acc !! s with
              | Some (VInt i) => <[s := VInt32 (int32 i)]> acc
              | _ => acc
              end) metas metas.

(** [RuleMatching], a method of [MatchRules] with a pointer receiver: the
    new value of the receiver and the named results [abort] and [err],
    which the body never assigns. *)
Definition MatchRules_RuleMatching (sc : ScanContext) (r : Rule)
    (mr : MatchRules) : MatchRules * (bool * error) :=
  let metas := convert_metas (Metas r) in
  (mr ++ [ {| mr_Rule := Identifier r;
              mr_Namespace := Namespace r;
              mr_Tags := Tags r;
              mr_Meta := metas;
              mr_Strings := getMatchStrings r sc |} ],
   (false, None)).

(** A pointer to [MatchRules] as a [ScanCallback]: its method set has
    [RuleMatching] and nothing else. *)
Definition MatchRules_callback (mr : MatchRules) : ScanCallback MatchRules :=
  mkScanCallback mr (Some MatchRules_RuleMatching) None None None None.

End MatchRecorder.

(** ** The dispatcher *)

(** Modelled from the spec: the values held by the process-wide registry
    [callbackData], which is declared in another file of the package. What
    is registered under a token is a callback container or a value of some
    other type. *)
Inductive Registered (T : Type) :=
  | RegContainer (c : scanCallbackContainer T)
  | RegOther.
Arguments RegContainer {T}.
Arguments RegOther {T}.

Section Dispatcher.

Context {T : Type}.

(** What a scan callback can touch: the registry, the C heap, the
    engine's [YR_MODULE_IMPORT] structures by address, and the trace of
    method calls made so far. *)
Record World := mkWorld {
  callbackData : gmap ptr (Registered T);
  heap : CHeap.t;
  imports : gmap ptr YR_MODULE_IMPORT;
  calls : list Call
}.

(** Modelled from the spec: [callbackData.Get], the registry's [resolve].
    A token resolves to the value registered under it; a token that is
    unknown or stale resolves to nothing (lookup failure). *)
Definition Get (reg : gmap ptr (Registered T)) (userData : ptr)
  : option (Registered T) := reg !! userData.

(** The type assertion to a pointer to [scanCallbackContainer], with its
    [ok]. *)
Definition assertContainer (v : option (Registered T))
  : option (scanCallbackContainer T) :=
  match v with
  | Some (RegContainer c) => Some c
  | _ => None
  end.

(** The callback returned a verdict to the engine, or the process died on
    a memory fault. *)
Inductive Result :=
  | Returned (verdict : Z) (w : World)
  | Crashed.

(** The world after a method of the container's callback object ran. *)
Definition called (w : World) (userData : ptr)
    (cbc : scanCallbackContainer T) (x : T) (c : Call) : World :=
  {| callbackData :=
       <[userData := RegContainer
           {| cb := with_self (cb cbc) x; cdata := cdata cbc;
              finalizer := finalizer cbc |}]> (callbackData w);
     heap := heap w;
     imports := imports w;
     calls := calls w ++ [c] |}.

(** [scanCallbackFunc]. The [switch] computes the world after the case that
    ran together with [abort] and [err], which keep their zero values when
    no method is called; the three [return]s follow it. *)
Definition scanCallbackFunc (w : World) (ctx : ptr) (message : Z)
    (messageData userData : ptr) : Result :=
  match assertContainer (Get (callbackData w) userData) with
  | None => Returned CALLBACK_ERROR w
  | Some cbc =>
    let s := {| sc_cptr := ctx |} in
    let switch : option (World * bool * error) :=
      if decide (message = CALLBACK_MSG_RULE_MATCHING) then
        match asMatch (cb cbc) with
        | Some c =>
            let r := messageData in
            let '(x, (abort, err)) := c s {| rule_cptr := r |} (self (cb cbc)) in
            Some (called w userData cbc x (CallRuleMatching s {| rule_cptr := r |}),
                  abort, err)
        | None => Some (w, false, None)
        end
      else if decide (message = CALLBACK_MSG_RULE_NOT_MATCHING) then
        match asNoMatch (cb cbc) with
        | Some c =>
            let r := messageData in
            let '(x, (abort, err)) := c s {| rule_cptr := r |} (self (cb cbc)) in
            Some (called w userData cbc x (CallRuleNotMatching s {| rule_cptr := r |}),
                  abort, err)
        | None => Some (w, false, None)
        end
      else if decide (message = CALLBACK_MSG_SCAN_FINISHED) then
        match asFinished (cb cbc) with
        | Some c =>
            let '(x, (abort, err)) := c s (self (cb cbc)) in
            Some (called w userData cbc x (CallScanFinished s), abort, err)
        | None => Some (w, false, None)
        end
      else if decide (message = CALLBACK_MSG_IMPORT_MODULE) then
        match asModuleImport (cb cbc) with
        | Some c =>
            (* mi.module_name is read before the call *)
            match imports w !! messageData with
            | None => None
            | Some mi =>
                let '(x, (buf, abort, err)) :=
                  c s (module_name mi) (self (cb cbc)) in
                let w1 := called w userData cbc x
                            (CallImportModule s (module_name mi)) in
                if decide (length buf = 0%nat) then Some (w1, abort, err) (* break *)
                else
                  let '(cbuf, h1) := CHeap.calloc 1 (length buf) (heap w1) in
                  (* outbuf is an empty slice whose header is overwritten *)
                  let hdr_Data := cbuf in
                  let hdr_Len := length buf in
                  match CHeap.copy hdr_Data hdr_Len buf h1 with
                  | None => None
                  | Some h2 =>
                      Some ({| callbackData :=
                                 <[userData := RegContainer
                                     (addCPointer
                                        {| cb := with_self (cb cbc) x;
                                           cdata := cdata cbc;
                                           finalizer := finalizer cbc |}
                                        cbuf)]> (callbackData w1);
                               heap := h2;
                               imports :=
                                 <[messageData :=
                                     {| module_name := module_name mi;
                                        module_data := hdr_Data;
                                        module_data_size := hdr_Len |}]>
                                   (imports w1);
                               calls := calls w1 |},
                            abort, err)
                  end
            end
        | None => Some (w, false, None)
        end
      else if decide (message = CALLBACK_MSG_MODULE_IMPORTED) then
        match asModuleImportFinished (cb cbc) with
        | Some c =>
            let obj := messageData in
            let '(x, (abort, err)) := c s {| obj_cptr := obj |} (self (cb cbc)) in
            Some (called w userData cbc x (CallModuleImported s {| obj_cptr := obj |}),
                  abort, err)
        | None => Some (w, false, None)
        end
      else Some (w, false, None)
    in
    match switch with
    | None => Crashed
    | Some (w', abort, err) =>
        if err is Some _ then Returned CALLBACK_ERROR w'
        else if abort then Returned CALLBACK_ABORT w'
        else Returned CALLBACK_CONTINUE w'
    end
  end.

End Dispatcher.
Arguments World : clear implicits.
Arguments Result : clear implicits.

(** ** Definitions that follow the specification's words *)

(** The verdict mapping of the specification: error present gives the
    engine's error code; else abort gives the abort code; else continue. *)
Definition verdict_mapping (abort : bool) (err : error) : Z :=
  match err with
  | Some _ => CALLBACK_ERROR
  | None => if abort then CALLBACK_ABORT else CALLBACK_CONTINUE
  end.

(** What the recorder's loop does to one metadata value. *)
Definition narrow_meta (v : MetaValue) : MetaValue :=
  match v with
  | VInt i => VInt32 (int32 i)
  | _ => v
  end.

(** An integer that [int32] can represent. *)
Definition fits_int32 (i : Z) : Prop := - 2 ^ 31 ≤ i < 2 ^ 31.

Section MatchRecorderSpec.

Context {MatchString : Type}.
Context (Identifier Namespace : Rule → string).
Context (Tags : Rule → list string).
Context (Metas : Rule → gmap string MetaValue).
Context (getMatchStrings : Rule → ScanContext → list MatchString).

Local Abbreviation recorder :=
  (MatchRules_RuleMatching Identifier Namespace Tags Metas getMatchStrings).

(** The record that a rule-matched event produces, in the specification's
    terms: the accessors' results, metadata integers narrowed. *)
Definition record_of (ev : ScanContext * Rule) : MatchRule :=
  {| mr_Rule := Identifier ev.2;
     mr_Namespace := Namespace ev.2;
     mr_Tags := Tags ev.2;
     mr_Meta := narrow_meta <$> Metas ev.2;
     mr_Strings := getMatchStrings ev.2 ev.1 |}.

(** The recorder fed with the rule-matched events of a scan, in the order
    the engine emits them; the results [(abort, err)] of every call are
    collected. *)
Fixpoint deliver (evs : list (ScanContext * Rule)) (mr : MatchRules)
  : MatchRules * list (bool * error) :=
  match evs with
  | [] => (mr, [])
  | ev :: evs' =>
      let '(mr1, res) := recorder ev.1 ev.2 mr in
      let '(mr2, ress) := deliver evs' mr1 in
      (mr2, res :: ress)
  end.

End MatchRecorderSpec.

(** The number of times [p] is passed to [free] in a trace. *)
Definition times_freed (p : ptr) (trace : list ptr) : nat :=
  length (filter (λ q, q = p) trace).

(** The five handled event kinds. *)
Definition handled (message : Z) : Prop :=
  message = CALLBACK_MSG_RULE_MATCHING
  ∨ message = CALLBACK_MSG_RULE_NOT_MATCHING
  ∨ message = CALLBACK_MSG_SCAN_FINISHED
  ∨ message = CALLBACK_MSG_IMPORT_MODULE
  ∨ message = CALLBACK_MSG_MODULE_IMPORTED.

Definition is_some {A} (o : option A) : bool :=
  match o with Some _ => true | None => false end.

(** The transition table of the specification, column "required
    capability": whether a callback object implements the capability that
    an event kind requires. *)
Definition implements {T} (sc : ScanCallback T) (message : Z) : bool :=
  if decide (message = CALLBACK_MSG_RULE_MATCHING) then is_some (asMatch sc)
  else if decide (message = CALLBACK_MSG_RULE_NOT_MATCHING) then is_some (asNoMatch sc)
  else if decide (message = CALLBACK_MSG_SCAN_FINISHED) then is_some (asFinished sc)
  else if decide (message = CALLBACK_MSG_IMPORT_MODULE) then is_some (asModuleImport sc)
  else if decide (message = CALLBACK_MSG_MODULE_IMPORTED) then is_some (asModuleImportFinished sc)
  else false.

Section DispatcherSpec.

Context {T : Type}.
Implicit Types (w : World T) (cbc : scanCallbackContainer T).

(** The transition table of the specification, column "action": for an
    event of kind [message] with data pointer [messageData], the capability
    method of the container's callback object that is invoked, recorded as
    [call], with what it returns: the receiver's new state [x], the payload
    [buf] (module import only), [abort] and [err]. *)
Inductive Invokes w cbc (s : ScanContext) (messageData : ptr)
  : Z → Call → T → list Byte.byte → bool → error → Prop :=
  | InvokesRuleMatching c x abort err :
      asMatch (cb cbc) = Some c →
      c s (mkRule messageData) (self (cb cbc)) = (x, (abort, err)) →
      Invokes w cbc s messageData CALLBACK_MSG_RULE_MATCHING
        (CallRuleMatching s (mkRule messageData)) x [] abort err
  | InvokesRuleNotMatching c x abort err :
      asNoMatch (cb cbc) = Some c →
      c s (mkRule messageData) (self (cb cbc)) = (x, (abort, err)) →
      Invokes w cbc s messageData CALLBACK_MSG_RULE_NOT_MATCHING
        (CallRuleNotMatching s (mkRule messageData)) x [] abort err
  | InvokesScanFinished c x abort err :
      asFinished (cb cbc) = Some c →
      c s (self (cb cbc)) = (x, (abort, err)) →
      Invokes w cbc s messageData CALLBACK_MSG_SCAN_FINISHED
        (CallScanFinished s) x [] abort err
  | InvokesImportModule c mi x buf abort err :
      asModuleImport (cb cbc) = Some c →
      imports w !! messageData = Some mi →
      c s (module_name mi) (self (cb cbc)) = (x, (buf, abort, err)) →
      Invokes w cbc s messageData CALLBACK_MSG_IMPORT_MODULE
        (CallImportModule s (module_name mi)) x buf abort err
  | InvokesModuleImported c x abort err :
      asModuleImportFinished (cb cbc) = Some c →
      c s (mkObject messageData) (self (cb cbc)) = (x, (abort, err)) →
      Invokes w cbc s messageData CALLBACK_MSG_MODULE_IMPORTED
        (CallModuleImported s (mkObject messageData)) x [] abort err.

(** [calloc] can serve a payload of this size. *)
Definition can_allocate w (buf : list Byte.byte) : Prop :=
  (length buf ≤ CHeap.avail (heap w))%nat.

#[global] Instance can_allocate_dec w buf : Decision (can_allocate w buf).
Proof. unfold can_allocate. apply _. Defined.

(** The container registered under a token, if there is one. *)
Definition container_of w (userData : ptr)
  : option (scanCallbackContainer T) :=
  assertContainer (Get (callbackData w) userData).

(** The world after a module-import payload [buf] has been copied to the
    fresh block [p], written into the engine's structure at [messageData]
    and tracked by the container; [w1] is the world after the call. *)
Definition handed_over (w1 : World T) (userData messageData : ptr)
    (cbc1 : scanCallbackContainer T) (name : string) (p : ptr)
    (buf : list Byte.byte) : World T :=
  {| callbackData :=
       <[userData := RegContainer (addCPointer cbc1 p)]> (callbackData w1);
     heap :=
       {| CHeap.blocks := <[p := buf]> (CHeap.blocks (heap w1));
          CHeap.brk := (CHeap.brk (heap w1) + Pos.of_succ_nat (length buf))%positive;
          CHeap.avail := (CHeap.avail (heap w1) - length buf)%nat;
          CHeap.freed := CHeap.freed (heap w1) |};
     imports :=
       <[messageData := {| module_name := name; module_data := p;
                           module_data_size := length buf |}]> (imports w1);
     calls := calls w1 |}.

(** The pointers tracked by the container registered under a token (none
    when the token does not resolve). *)
Definition tracked w (userData : ptr) : list ptr :=
  from_option cdata [] (container_of w userData).

(** Live blocks lie below the allocation frontier and none is at [NULL]. *)
Definition heap_ok (h : CHeap.t) : Prop :=
  ∀ p, is_Some (CHeap.blocks h !! p) → p ≠ NULL ∧ (p < Npos (CHeap.brk h))%N.

(** The buffer-lifetime invariant: every registered container tracks
    distinct live blocks, and no block is tracked by two containers. *)
Definition tracked_ok w : Prop :=
  heap_ok (heap w)
  ∧ (∀ tok c, callbackData w !! tok = Some (RegContainer c) →
       NoDup (cdata c)
       ∧ ∀ p, p ∈ cdata c → is_Some (CHeap.blocks (heap w) !! p))
  ∧ (∀ t1 t2 c1 c2 p,
       t1 ≠ t2 →
       callbackData w !! t1 = Some (RegContainer c1) →
       callbackData w !! t2 = Some (RegContainer c2) →
       p ∈ cdata c1 → p ∉ cdata c2).

End DispatcherSpec.

(** The message code that a recorded call answers. *)
Definition call_kind (c : Call) : Z :=
  match c with
  | CallRuleMatching _ _ => CALLBACK_MSG_RULE_MATCHING
  | CallRuleNotMatching _ _ => CALLBACK_MSG_RULE_NOT_MATCHING
  | CallScanFinished _ => CALLBACK_MSG_SCAN_FINISHED
  | CallImportModule _ _ => CALLBACK_MSG_IMPORT_MODULE
  | CallModuleImported _ _ => CALLBACK_MSG_MODULE_IMPORTED
  end.

(** Two callback objects with the same method set. *)
Definition same_methods {T} (a b : ScanCallback T) : Prop :=
  asMatch a = asMatch b
  ∧ asNoMatch a = asNoMatch b
  ∧ asFinished a = asFinished b
  ∧ asModuleImport a = asModuleImport b
  ∧ asModuleImportFinished a = asModuleImportFinished b.

(** The arguments of one call of the engine into [scanCallbackFunc]. *)
Record Event := mkEvent {
  ev_ctx : ptr;
  ev_message : Z;
  ev_messageData : ptr;
  ev_userData : ptr
}.

(** The rule-matched events of a sequence, as the recorder receives them:
    the scan context and the rule handle the dispatcher builds. *)
Definition rule_matched_events (evs : list Event)
  : list (ScanContext * Rule) :=
  omap (λ e, if decide (ev_message e = CALLBACK_MSG_RULE_MATCHING)
             then Some (mkScanContext (ev_ctx e), mkRule (ev_messageData e))
             else None) evs.

Section BridgeRuns.

Context {T : Type}.
Implicit Types (w : World T) (cbc : scanCallbackContainer T).

(** The engine calling [scanCallbackFunc] once per event, in order: the
    verdicts returned and the final world, or nothing when a call dies.
    Whether the engine goes on after an abort or error verdict is its own
    business, so every sequence is allowed here. *)
Fixpoint dispatch_all (evs : list Event) w : option (list Z * World T) :=
  match evs with
  | [] => Some ([], w)
  | e :: evs' =>
      match scanCallbackFunc w (ev_ctx e) (ev_message e) (ev_messageData e)
              (ev_userData e) with
      | Crashed => None
      | Returned v w1 =>
          match dispatch_all evs' w1 with
          | Some (vs, w2) => Some (v :: vs, w2)
          | None => None
          end
      end
  end.

(** [finalize] called on the container that is registered under a token:
    the container is reached through a pointer, so the registry sees its
    new state. *)
Definition finalize_registered w (userData : ptr) : World T :=
  match container_of w userData with
  | Some c =>
      let '(c1, h1) := finalize c (heap w) in
      {| callbackData := <[userData := RegContainer c1]> (callbackData w);
         heap := h1;
         imports := imports w;
         calls := calls w |}
  | None => w
  end.

(** Every registered container is as [makeScanCallbackContainer] made it. *)
Definition all_fresh w : Prop :=
  ∀ tok c, callbackData w !! tok = Some (RegContainer c) →
           ∃ sc, c = makeScanCallbackContainer sc.

(** The state of the callback object registered under a token. *)
Definition receiver w (userData : ptr) : option T :=
  (self ∘ cb) <$> container_of w userData.

End BridgeRuns.

(** ** A small engine and two callback objects to run the bridge on *)

Module Demo.

(** Two rules of the engine, by address. *)
Definition MatchString : Type := string * N.

Definition Identifier (r : Rule) : string :=
  if decide (rule_cptr r = 100%N) then "suspicious"%string
  else "oversized"%string.

Definition Namespace (r : Rule) : string := "default"%string.

Definition Tags (r : Rule) : list string :=
  if decide (rule_cptr r = 100%N) then ["malware"%string] else [].

Definition Metas (r : Rule) : gmap string MetaValue :=
  if decide (rule_cptr r = 100%N) then {[ "score"%string := VInt 80 ]}
  else {[ "score"%string := VInt 2147483648;
          "packed"%string := VBool true ]}.

Definition getMatchStrings (r : Rule) (sc : ScanContext) : list MatchString :=
  if decide (rule_cptr r = 100%N) then [("$a"%string, 16%N)] else [].

Definition recorder :=
  MatchRules_RuleMatching Identifier Namespace Tags Metas getMatchStrings.

Definition empty_heap : CHeap.t :=
  {| CHeap.blocks := ∅; CHeap.brk := 1; CHeap.avail := 16; CHeap.freed := [] |}.

(** A scan that records matches: an empty [MatchRules] registered under
    token 7. *)
Definition recorder_world : World (@MatchRules MatchString) :=
  {| callbackData :=
       {[ 7%N := RegContainer
                   (makeScanCallbackContainer
                      (MatchRules_callback Identifier Namespace Tags Metas
                         getMatchStrings [])) ]};
     heap := empty_heap;
     imports := ∅;
     calls := [] |}.

(** A callback object that counts its calls. It answers module imports by
    name and aborts when the scan finishes. *)
Definition importer_ImportModule : ScanCallbackModuleImport nat :=
  λ s name n,
    (S n,
     if decide (name = "pe"%string) then
       ([Byte.x4d; Byte.x5a], false, None)
     else if decide (name = "bad"%string) then
       ([Byte.x41], true, Some "boom"%string)
     else if decide (name = "huge"%string) then
       (replicate 32 Byte.xff, false, None)
     else ([], false, Some "no data"%string)).

Definition importer_ScanFinished : ScanCallbackFinished nat :=
  λ s n, (S n, (true, None)).

Definition importer : ScanCallback nat :=
  mkScanCallback 0%nat None None (Some importer_ScanFinished)
    (Some importer_ImportModule) None.

(** The importer registered under token 7, something that is not a
    container under token 8, and four pending module imports. *)
Definition importer_world : World nat :=
  {| callbackData :=
       {[ 7%N := RegContainer (makeScanCallbackContainer importer);
          8%N := RegOther ]};
     heap := empty_heap;
     imports :=
       {[ 200%N := mkModuleImport "pe" NULL 0;
          201%N := mkModuleImport "bad" NULL 0;
          202%N := mkModuleImport "net" NULL 0;
          203%N := mkModuleImport "huge" NULL 0 ]};
     calls := [] |}.

(** The world that a returning call of the dispatcher leaves ([w] itself
    when the call dies). *)
Definition after {T} (w : World T) (e : Event) : World T :=
  match scanCallbackFunc w (ev_ctx e) (ev_message e) (ev_messageData e)
          (ev_userData e) with
  | Returned _ w' => w'
  | Crashed => w
  end.

(** Events for the importer: module "pe", module "bad", scan finished. *)
Definition import_pe : Event := mkEvent 1%N CALLBACK_MSG_IMPORT_MODULE 200%N 7%N.
Definition import_bad : Event := mkEvent 1%N CALLBACK_MSG_IMPORT_MODULE 201%N 7%N.
Definition scan_finished : Event := mkEvent 1%N CALLBACK_MSG_SCAN_FINISHED 0%N 7%N.

Definition after_pe : World nat := after importer_world import_pe.
Definition after_bad : World nat := after after_pe import_bad.

(** Two importers, under tokens 7 and 9, and one module import for each. *)
Definition two_importers : World nat :=
  {| callbackData :=
       {[ 7%N := RegContainer (makeScanCallbackContainer importer);
          9%N := RegContainer (makeScanCallbackContainer importer) ]};
     heap := empty_heap;
     imports := imports importer_world;
     calls := [] |}.

Definition two_importers_after : World nat :=
  after (after two_importers import_pe)
    (mkEvent 1%N CALLBACK_MSG_IMPORT_MODULE 201%N 9%N).

(** Events for the recorder: two matches with other events in between. *)
Definition recorder_events : list Event :=
  [ mkEvent 1%N CALLBACK_MSG_RULE_MATCHING 100%N 7%N;
    mkEvent 1%N CALLBACK_MSG_RULE_NOT_MATCHING 101%N 7%N;
    mkEvent 1%N CALLBACK_MSG_RULE_MATCHING 101%N 7%N;
    mkEvent 1%N CALLBACK_MSG_SCAN_FINISHED 0%N 7%N ].

End Demo.

(** * Properties *)

(** ** The match recorder *)

Lemma int32_fits i : fits_int32 i → int32 i = i.
Proof.
  unfold fits_int32, int32. intros Hi.
  rewrite Z.mod_small; lia.
Qed.

Lemma int32_range i : fits_int32 (int32 i).
Proof.
  unfold fits_int32, int32.
  pose proof (Z.mod_pos_bound (i + 2 ^ 31) (2 ^ 32) ltac:(lia)). lia.
Qed.

Lemma narrow_meta_idemp v : narrow_meta (narrow_meta v) = narrow_meta v.
Proof.
  destruct v; simpl; try done.
Qed.

(** The loop, started on the map [b] and ranging over the keys of [m],
    converts exactly the entries of [b] whose key is in [m]. *)
Lemma convert_loop_lookup (m b : gmap string MetaValue) (k : string) :
  map_fold (λ s _ acc,
              match acc !! s with
              | Some (VInt i) => <[s := VInt32 (int32 i)]> acc
              | _ => acc
              end) b m !! k
  = match m !! k with
    | Some _ => narrow_meta <$> b !! k
    | None => b !! k
    end.
Proof.
  revert k.
  apply (map_fold_weak_ind
           (λ (r m : gmap string MetaValue),
              ∀ k, r !! k = match m !! k with
                            | Some _ => narrow_meta <$> b !! k
                            | None => b !! k
                            end)).
  - intros k. by rewrite lookup_empty.
  - intros i x m' r Hfresh IH k.
    pose proof (IH i) as Hi. rewrite Hfresh in Hi.
    destruct (decide (i = k)) as [->|Hne].
    + rewrite lookup_insert_eq.
      destruct (r !! k) as [[n| | |]|] eqn:Hr;
        rewrite ?lookup_insert_eq, ?Hr, <- Hi; done.
    + rewrite lookup_insert_ne by done.
      destruct (r !! i) as [[n| | |]|];
        rewrite ?lookup_insert_ne by done; apply IH.
Qed.

Lemma convert_metas_lookup (metas : gmap string MetaValue) (k : string) :
  convert_metas metas !! k = narrow_meta <$> metas !! k.
Proof.
  unfold convert_metas. rewrite convert_loop_lookup.
  by destruct (metas !! k).
Qed.

Lemma convert_metas_fmap (metas : gmap string MetaValue) :
  convert_metas metas = narrow_meta <$> metas.
Proof.
  apply map_eq. intros k. by rewrite convert_metas_lookup, lookup_fmap.
Qed.

Section MatchRecorderProperties.

Context {MatchString : Type}.
Context (Identifier Namespace : Rule → string).
Context (Tags : Rule → list string).
Context (Metas : Rule → gmap string MetaValue).
Context (getMatchStrings : Rule → ScanContext → list MatchString).

Local Abbreviation recorder :=
  (MatchRules_RuleMatching Identifier Namespace Tags Metas getMatchStrings).
Local Abbreviation record_of :=
  (record_of Identifier Namespace Tags Metas getMatchStrings).
Local Abbreviation deliver :=
  (deliver Identifier Namespace Tags Metas getMatchStrings).

Lemma RuleMatching_unfold sc r mr :
  recorder sc r mr = (mr ++ [record_of (sc, r)], (false, None)).
Proof.
  unfold MatchRules_RuleMatching, record_of. simpl.
  by rewrite convert_metas_fmap.
Qed.

Lemma deliver_spec evs : ∀ mr,
  deliver evs mr
  = (mr ++ (record_of <$> evs), replicate (length evs) (false, None)).
Proof.
  induction evs as [|[sc r] evs IH]; intros mr; cbn [deliver].
  - by rewrite app_nil_r.
  - cbn [fst snd]. rewrite RuleMatching_unfold, IH.
    cbn [fmap list_fmap length replicate].
    by rewrite <- app_assoc.
Qed.

(** C8. Every rule-matched event delivered to the match recorder appends
    exactly one record, a snapshot of the rule's identifier, namespace,
    tags, metadata and matched strings, at the end of the result sequence:
    the sequence grows by one, the records already there keep their
    places, and the call returns abort = false and a nil error. Over a
    whole scan the records therefore stand in the engine's emission
    order. *)
Theorem RuleMatching_appends_one_record :
  ∀ (sc : ScanContext) (r : Rule) (mr : MatchRules),
    let '(mr', (abort, err)) := recorder sc r mr in
    mr' = mr ++ [record_of (sc, r)]
    ∧ length mr' = S (length mr)
    ∧ (∀ i rec, mr !! i = Some rec → mr' !! i = Some rec)
    ∧ last mr' = Some (record_of (sc, r))
    ∧ abort = false ∧ err = None
    ∧ ∀ evs, (deliver evs mr).1 = mr ++ (record_of <$> evs)
             ∧ Forall (λ res, res = (false, None)) (deliver evs mr).2.
Proof.
  intros sc r mr. rewrite RuleMatching_unfold.
  repeat split.
  - rewrite length_app. simpl. lia.
  - intros i rec Hi. by apply lookup_app_l_Some.
  - by rewrite last_snoc.
  - by rewrite deliver_spec.
  - rewrite deliver_spec. simpl. apply Forall_replicate. done.
Qed.

(** C2 (amended). The recorder stores every metadata entry the engine
    reports under the same key. An integer, which the engine reports as a
    Go [int], is stored as an [int32] holding its low 32 bits: the number
    is the one the engine reported exactly when it fits in 32 bits, and
    the stored width is 32 bits, not 64. Booleans and strings are stored
    unchanged, and no key is added. *)
Theorem RuleMatching_narrows_integer_metadata :
  ∀ (sc : ScanContext) (r : Rule) (mr : MatchRules) (s : string),
    let stored := mr_Meta <$> last (recorder sc r mr).1 in
    (∀ i, Metas r !! s = Some (VInt i) →
          (stored ≫= (.!! s)) = Some (VInt32 (int32 i))
          ∧ fits_int32 (int32 i)
          ∧ (int32 i = i ↔ fits_int32 i))
    ∧ (∀ v, Metas r !! s = Some v → (∀ i, v ≠ VInt i) →
            (stored ≫= (.!! s)) = Some v)
    ∧ (Metas r !! s = None → (stored ≫= (.!! s)) = None).
Proof.
  intros sc r mr s. rewrite RuleMatching_unfold. simpl.
  rewrite last_snoc. simpl. rewrite lookup_fmap.
  split; [|split].
  - intros i Hi. rewrite Hi. simpl. split; [done|].
    split; [apply int32_range|].
    split; [|apply int32_fits].
    intros <-. apply int32_range.
  - intros v Hv Hnot. rewrite Hv. simpl.
    destruct v; simpl; try done. by destruct (Hnot i).
  - intros ->. done.
Qed.

End MatchRecorderProperties.

(** ** The callback container *)

Lemma free_all_freed (ps : list ptr) : ∀ h,
  CHeap.freed (foldl (λ h p, CHeap.free p h) h ps) = CHeap.freed h ++ ps.
Proof.
  induction ps as [|p ps IH]; intros h; simpl.
  - by rewrite app_nil_r.
  - rewrite IH. simpl. by rewrite <- app_assoc.
Qed.

Lemma free_all_blocks (ps : list ptr) : ∀ h q,
  CHeap.blocks (foldl (λ h p, CHeap.free p h) h ps) !! q
  = if bool_decide (q ∈ ps) then None else CHeap.blocks h !! q.
Proof.
  induction ps as [|p ps IH]; intros h q; simpl.
  - done.
  - rewrite IH. simpl.
    destruct (decide (q = p)) as [->|Hne].
    + rewrite lookup_delete_eq.
      rewrite (bool_decide_eq_true_2 (p ∈ p :: ps)) by left.
      by destruct (bool_decide (p ∈ ps)).
    + rewrite lookup_delete_ne by done.
      rewrite (bool_decide_ext (q ∈ p :: ps) (q ∈ ps)); [done|].
      rewrite elem_of_cons. split; [by intros [?|?]|by right].
Qed.

Lemma times_freed_cons (p q : ptr) (ps : list ptr) :
  times_freed p (q :: ps)
  = ((if bool_decide (q = p) then 1 else 0) + times_freed p ps)%nat.
Proof.
  unfold times_freed. rewrite filter_cons.
  destruct (decide (q = p)) as [Heq|Hne].
  - by rewrite bool_decide_eq_true_2.
  - by rewrite bool_decide_eq_false_2.
Qed.

Lemma times_freed_not_in (p : ptr) (ps : list ptr) :
  p ∉ ps → times_freed p ps = 0%nat.
Proof.
  induction ps as [|q ps IH]; intros Hp; [done|].
  rewrite times_freed_cons. apply not_elem_of_cons in Hp as [Hne Hp].
  rewrite bool_decide_eq_false_2 by done. by rewrite IH.
Qed.

Lemma times_freed_NoDup (p : ptr) (ps : list ptr) :
  NoDup ps → p ∈ ps → times_freed p ps = 1%nat.
Proof.
  induction 1 as [|q ps Hq Hnd IH]; intros Hin.
  - by apply elem_of_nil in Hin.
  - rewrite times_freed_cons. destruct (decide (q = p)) as [->|Hne].
    + rewrite bool_decide_eq_true_2 by done.
      by rewrite times_freed_not_in.
    + rewrite bool_decide_eq_false_2 by done.
      apply elem_of_cons in Hin as [->|Hin]; [done|]. by rewrite IH.
Qed.

(** C9. Releasing a container's buffers calls [free] once on each tracked
    pointer and on nothing else, leaves the tracked list empty and clears
    the finalizer; a second release therefore frees nothing and changes
    nothing. *)
Theorem finalize_frees_each_once_and_is_idempotent :
  ∀ (T : Type) (c : scanCallbackContainer T) (h : CHeap.t),
    let '(c1, h1) := finalize c h in
    let released := drop (length (CHeap.freed h)) (CHeap.freed h1) in
    released = cdata c
    ∧ (NoDup (cdata c) →
       ∀ p, times_freed p released = if bool_decide (p ∈ cdata c) then 1%nat else 0%nat)
    ∧ (∀ p, p ∈ cdata c → CHeap.blocks h1 !! p = None)
    ∧ cdata c1 = [] ∧ finalizer c1 = false ∧ cb c1 = cb c
    ∧ finalize c1 h1 = (c1, h1)
    ∧ CHeap.freed (finalize c1 h1).2 = CHeap.freed h1.
Proof.
  intros T c h. unfold finalize. simpl.
  rewrite free_all_freed, drop_app_length.
  repeat split; try done.
  - intros Hnd p. case_bool_decide.
    + by apply times_freed_NoDup.
    + by apply times_freed_not_in.
  - intros p Hp. rewrite free_all_blocks. by rewrite bool_decide_eq_true_2.
Qed.

(** ** The dispatcher *)

Section DispatcherProperties.

Context {T : Type}.
Implicit Types (w : World T) (cbc : scanCallbackContainer T).

Lemma verdict_lines (w' : World T) (abort : bool) (err : error) :
  (if err is Some _ then Returned CALLBACK_ERROR w'
   else if abort then Returned CALLBACK_ABORT w'
   else Returned CALLBACK_CONTINUE w')
  = Returned (verdict_mapping abort err) w'.
Proof. by destruct err, abort. Qed.

Lemma calloc_copy (h : CHeap.t) (buf : list Byte.byte) :
  let '(cbuf, h1) := CHeap.calloc 1 (length buf) h in
  CHeap.copy cbuf (length buf) buf h1
  = if decide (length buf ≤ CHeap.avail h)%nat then
      Some {| CHeap.blocks := <[Npos (CHeap.brk h) := buf]> (CHeap.blocks h);
              CHeap.brk := (CHeap.brk h + Pos.of_succ_nat (length buf))%positive;
              CHeap.avail := (CHeap.avail h - length buf)%nat;
              CHeap.freed := CHeap.freed h |}
    else None.
Proof.
  unfold CHeap.calloc. rewrite Nat.mul_1_l.
  case_bool_decide as Hfit.
  - rewrite decide_True by done.
    unfold CHeap.copy. simpl. rewrite lookup_insert_eq.
    rewrite Nat.min_id, length_replicate.
    rewrite bool_decide_eq_true_2 by done.
    rewrite insert_insert_eq, firstn_all.
    rewrite <- (length_replicate (length buf) Byte.x00) at 1.
    by rewrite drop_all, app_nil_r.
  - rewrite decide_False by done.
    unfold CHeap.copy. destruct (CHeap.blocks h !! NULL) eqn:Hnull.
    + by rewrite bool_decide_eq_false_2 by (by intros [? _]).
    + done.
Qed.

Lemma scanCallbackFunc_unregistered w ctx message messageData userData :
  container_of w userData = None →
  scanCallbackFunc w ctx message messageData userData
  = Returned CALLBACK_ERROR w.
Proof.
  unfold container_of, scanCallbackFunc. by intros ->.
Qed.

Lemma scanCallbackFunc_skips w ctx message messageData userData cbc :
  container_of w userData = Some cbc →
  implements (cb cbc) message = false →
  scanCallbackFunc w ctx message messageData userData
  = Returned CALLBACK_CONTINUE w.
Proof.
  unfold container_of, scanCallbackFunc, implements. intros -> Himpl.
  repeat case_decide;
    repeat match goal with
           | H : is_some ?o = false |- _ => destruct o; [discriminate H|clear H]
           end; done.
Qed.

Lemma scanCallbackFunc_import w ctx messageData userData cbc c mi x buf abort err :
  container_of w userData = Some cbc →
  asModuleImport (cb cbc) = Some c →
  imports w !! messageData = Some mi →
  c (mkScanContext ctx) (module_name mi) (self (cb cbc)) = (x, (buf, abort, err)) →
  let w1 := called w userData cbc x
              (CallImportModule (mkScanContext ctx) (module_name mi)) in
  scanCallbackFunc w ctx CALLBACK_MSG_IMPORT_MODULE messageData userData
  = if decide (length buf = 0%nat) then
      Returned (verdict_mapping abort err) w1
    else if decide (can_allocate w buf) then
      Returned (verdict_mapping abort err)
        (handed_over w1 userData messageData
           (mkContainer (with_self (cb cbc) x) (cdata cbc) (finalizer cbc))
           (module_name mi) (Npos (CHeap.brk (heap w))) buf)
    else Crashed.
Proof.
  unfold container_of, scanCallbackFunc, can_allocate.
  intros -> Hc Hmi Hres. simpl.
  rewrite Hc, Hmi, Hres.
  case_decide as Hlen; [apply verdict_lines|].
  pose proof (calloc_copy (heap w) buf) as Hcc. simpl.
  destruct (CHeap.calloc 1 (length buf) (heap w)) as [cbuf h1] eqn:Hcalloc.
  rewrite Hcc.
  destruct (decide (length buf ≤ CHeap.avail (heap w))%nat) as [Hfit|Hfit];
    [|done].
  rewrite verdict_lines.
  unfold CHeap.calloc in Hcalloc. rewrite Nat.mul_1_l in Hcalloc.
  rewrite bool_decide_eq_true_2 in Hcalloc by done.
  by injection Hcalloc as <- <-.
Qed.

(** Every kind but module import: the method runs and its results decide
    the verdict. *)
Lemma scanCallbackFunc_invokes w ctx message messageData userData cbc
    call x buf abort err :
  container_of w userData = Some cbc →
  Invokes w cbc (mkScanContext ctx) messageData message call x buf abort err →
  scanCallbackFunc w ctx message messageData userData
  = if decide (length buf = 0%nat) then
      Returned (verdict_mapping abort err) (called w userData cbc x call)
    else if decide (can_allocate w buf) then
      Returned (verdict_mapping abort err)
        (handed_over (called w userData cbc x call) userData messageData
           (mkContainer (with_self (cb cbc) x) (cdata cbc) (finalizer cbc))
           (match call with CallImportModule _ name => name | _ => EmptyString end)
           (Npos (CHeap.brk (heap w))) buf)
    else Crashed.
Proof.
  intros Hcbc Hinv.
  destruct Hinv as [c x abort err Hc Hres|c x abort err Hc Hres
                   |c x abort err Hc Hres|c mi x buf abort err Hc Hmi Hres
                   |c x abort err Hc Hres];
    try (unfold container_of in Hcbc; unfold scanCallbackFunc;
         rewrite Hcbc; simpl; rewrite Hc, Hres; apply verdict_lines).
  by eapply scanCallbackFunc_import.
Qed.

Lemma scanCallbackFunc_bad_import w ctx messageData userData cbc c :
  container_of w userData = Some cbc →
  asModuleImport (cb cbc) = Some c →
  imports w !! messageData = None →
  scanCallbackFunc w ctx CALLBACK_MSG_IMPORT_MODULE messageData userData
  = Crashed.
Proof.
  unfold container_of, scanCallbackFunc. intros -> Hc Hmi. simpl.
  by rewrite Hc, Hmi.
Qed.

(** Every way in which the dispatcher returns. *)
Lemma scanCallbackFunc_returns w ctx message messageData userData v w' :
  scanCallbackFunc w ctx message messageData userData = Returned v w' →
  (container_of w userData = None ∧ v = CALLBACK_ERROR ∧ w' = w)
  ∨ (∃ cbc, container_of w userData = Some cbc
            ∧ implements (cb cbc) message = false
            ∧ v = CALLBACK_CONTINUE ∧ w' = w)
  ∨ (∃ cbc call x buf abort err,
       container_of w userData = Some cbc
       ∧ Invokes w cbc (mkScanContext ctx) messageData message call x buf abort err
       ∧ v = verdict_mapping abort err
       ∧ ((buf = [] ∧ w' = called w userData cbc x call)
          ∨ (buf ≠ [] ∧ can_allocate w buf
             ∧ w' = handed_over (called w userData cbc x call) userData
                      messageData
                      (mkContainer (with_self (cb cbc) x) (cdata cbc) (finalizer cbc))
                      (match call with CallImportModule _ name => name | _ => EmptyString end)
                      (Npos (CHeap.brk (heap w))) buf))).
Proof.
  intros Hret.
  destruct (container_of w userData) as [cbc|] eqn:Hcbc.
  2: { left. rewrite scanCallbackFunc_unregistered in Hret by done.
       by inversion Hret. }
  right.
  destruct (implements (cb cbc) message) eqn:Himpl.
  2: { left. exists cbc.
       rewrite (scanCallbackFunc_skips _ _ _ _ _ _ Hcbc Himpl) in Hret.
       by inversion Hret. }
  right. exists cbc.
  assert (∀ call x buf abort err,
    Invokes w cbc (mkScanContext ctx) messageData message call x buf abort err →
    ∃ call x buf abort err,
      Some cbc = Some cbc
      ∧ Invokes w cbc (mkScanContext ctx) messageData message call x buf abort err
      ∧ v = verdict_mapping abort err
      ∧ ((buf = [] ∧ w' = called w userData cbc x call)
         ∨ (buf ≠ [] ∧ can_allocate w buf
            ∧ w' = handed_over (called w userData cbc x call) userData
                     messageData
                     (mkContainer (with_self (cb cbc) x) (cdata cbc) (finalizer cbc))
                     (match call with CallImportModule _ name => name | _ => EmptyString end)
                     (Npos (CHeap.brk (heap w))) buf))) as Hgo.
  { intros call x buf abort err Hinv.
    rewrite (scanCallbackFunc_invokes _ _ _ _ _ _ _ _ _ _ _ Hcbc Hinv) in Hret.
    exists call, x, buf, abort, err. split; [done|]. split; [done|].
    destruct buf as [|b buf]; simpl in Hret.
    - inversion Hret. split; [done|]. by left.
    - case_decide; [|done]. inversion Hret. split; [done|]. by right. }
  unfold implements in Himpl.
  repeat case_decide; try done; subst message.
  - destruct (asMatch (cb cbc)) as [c|] eqn:Hc; [|done].
    destruct (c (mkScanContext ctx) (mkRule messageData) (self (cb cbc)))
      as [x [abort err]] eqn:Hres.
    eapply Hgo. by econstructor.
  - destruct (asNoMatch (cb cbc)) as [c|] eqn:Hc; [|done].
    destruct (c (mkScanContext ctx) (mkRule messageData) (self (cb cbc)))
      as [x [abort err]] eqn:Hres.
    eapply Hgo. by eapply InvokesRuleNotMatching.
  - destruct (asFinished (cb cbc)) as [c|] eqn:Hc; [|done].
    destruct (c (mkScanContext ctx) (self (cb cbc)))
      as [x [abort err]] eqn:Hres.
    eapply Hgo. by econstructor.
  - destruct (asModuleImport (cb cbc)) as [c|] eqn:Hc; [|done].
    destruct (imports w !! messageData) as [mi|] eqn:Hmi.
    2: { by rewrite (scanCallbackFunc_bad_import _ _ _ _ _ _ Hcbc Hc Hmi) in Hret. }
    destruct (c (mkScanContext ctx) (module_name mi) (self (cb cbc)))
      as [x [[buf abort] err]] eqn:Hres.
    eapply Hgo. by econstructor.
  - destruct (asModuleImportFinished (cb cbc)) as [c|] eqn:Hc; [|done].
    destruct (c (mkScanContext ctx) (mkObject messageData) (self (cb cbc)))
      as [x [abort err]] eqn:Hres.
    eapply Hgo. by econstructor.
Qed.

(** X7. The dispatcher dies exactly when a module-import method is about to
    be called on a pointer that is no [YR_MODULE_IMPORT] (the module name is
    read before the call), or has returned a non-empty payload that
    [calloc] cannot serve (the copy goes through [NULL]); in every other
    situation it returns. *)
Lemma scanCallbackFunc_crashes w ctx message messageData userData :
  scanCallbackFunc w ctx message messageData userData = Crashed ↔
  ∃ cbc c,
    container_of w userData = Some cbc
    ∧ message = CALLBACK_MSG_IMPORT_MODULE
    ∧ asModuleImport (cb cbc) = Some c
    ∧ match imports w !! messageData with
      | None => True
      | Some mi =>
          let buf := (c (mkScanContext ctx) (module_name mi) (self (cb cbc))).2.1.1 in
          buf ≠ [] ∧ ¬ can_allocate w buf
      end.
Proof.
  split.
  - intros Hcrash.
    destruct (container_of w userData) as [cbc|] eqn:Hcbc.
    2: { by rewrite scanCallbackFunc_unregistered in Hcrash. }
    destruct (implements (cb cbc) message) eqn:Himpl.
    2: { by rewrite (scanCallbackFunc_skips _ _ _ _ _ _ Hcbc Himpl) in Hcrash. }
    assert (∀ call x abort err,
      Invokes w cbc (mkScanContext ctx) messageData message call x [] abort err →
      False) as Hno.
    { intros call x abort err Hinv.
      by rewrite (scanCallbackFunc_invokes _ _ _ _ _ _ _ _ _ _ _ Hcbc Hinv)
        in Hcrash. }
    unfold implements in Himpl.
    repeat case_decide; try done; subst message.
    + destruct (asMatch (cb cbc)) as [c|] eqn:Hc; [|done].
      destruct (c (mkScanContext ctx) (mkRule messageData) (self (cb cbc)))
        as [x [abort err]] eqn:Hres.
      destruct (Hno _ x abort err (InvokesRuleMatching _ _ _ _ c x abort err Hc Hres)).
    + destruct (asNoMatch (cb cbc)) as [c|] eqn:Hc; [|done].
      destruct (c (mkScanContext ctx) (mkRule messageData) (self (cb cbc)))
        as [x [abort err]] eqn:Hres.
      destruct (Hno _ x abort err (InvokesRuleNotMatching _ _ _ _ c x abort err Hc Hres)).
    + destruct (asFinished (cb cbc)) as [c|] eqn:Hc; [|done].
      destruct (c (mkScanContext ctx) (self (cb cbc)))
        as [x [abort err]] eqn:Hres.
      destruct (Hno _ x abort err (InvokesScanFinished _ _ _ _ c x abort err Hc Hres)).
    + destruct (asModuleImport (cb cbc)) as [c|] eqn:Hc; [|done].
      exists cbc, c. repeat (split; [done|]).
      destruct (imports w !! messageData) as [mi|] eqn:Hmi; [|done].
      destruct (c (mkScanContext ctx) (module_name mi) (self (cb cbc)))
        as [x [[buf abort] err]] eqn:Hres.
      rewrite (scanCallbackFunc_import _ _ _ _ _ _ _ _ _ _ _ Hcbc Hc Hmi Hres)
        in Hcrash.
      simpl. repeat case_decide; try done.
      split; [|done]. by destruct buf.
    + destruct (asModuleImportFinished (cb cbc)) as [c|] eqn:Hc; [|done].
      destruct (c (mkScanContext ctx) (mkObject messageData) (self (cb cbc)))
        as [x [abort err]] eqn:Hres.
      destruct (Hno _ x abort err (InvokesModuleImported _ _ _ _ c x abort err Hc Hres)).
  - intros (cbc & c & Hcbc & -> & Hc & Hbad).
    destruct (imports w !! messageData) as [mi|] eqn:Hmi.
    2: { by eapply scanCallbackFunc_bad_import. }
    destruct (c (mkScanContext ctx) (module_name mi) (self (cb cbc)))
      as [x [[buf abort] err]] eqn:Hres.
    rewrite (scanCallbackFunc_import _ _ _ _ _ _ _ _ _ _ _ Hcbc Hc Hmi Hres).
    simpl in Hbad. destruct Hbad as [Hne Hfit].
    rewrite decide_False by (by destruct buf).
    by rewrite decide_False.
Qed.

Lemma container_of_Some w userData cbc :
  container_of w userData = Some cbc ↔
  callbackData w !! userData = Some (RegContainer cbc).
Proof.
  unfold container_of, Get, assertContainer.
  destruct (callbackData w !! userData) as [[c|]|]; naive_solver.
Qed.

(** Replacing a registered container by one that tracks what it tracked
    and, possibly, blocks that were not live before keeps the invariant. *)
Lemma tracked_ok_update w userData cbc c' h' im cl :
  callbackData w !! userData = Some (RegContainer cbc) →
  tracked_ok w →
  heap_ok h' →
  (∀ q, is_Some (CHeap.blocks (heap w) !! q) → is_Some (CHeap.blocks h' !! q)) →
  NoDup (cdata c') →
  (∀ p, p ∈ cdata c' → is_Some (CHeap.blocks h' !! p)) →
  (∀ p, p ∈ cdata c' →
        p ∈ cdata cbc ∨ ¬ is_Some (CHeap.blocks (heap w) !! p)) →
  tracked_ok {| callbackData := <[userData := RegContainer c']> (callbackData w);
                heap := h'; imports := im; calls := cl |}.
Proof.
  intros Hreg (Hheap & Hcont & Hdisj) Hheap' Hmono Hnd Hlive Hnew.
  split; [done|]. split; simpl.
  - intros tok c Hc. destruct (decide (tok = userData)) as [->|Hne].
    + rewrite lookup_insert_eq in Hc. by injection Hc as <-.
    + rewrite lookup_insert_ne in Hc by done.
      destruct (Hcont _ _ Hc) as [Hnd1 Hlive1]. split; [done|].
      intros p Hp. apply Hmono. by apply Hlive1.
  - intros t1 t2 c1 c2 p Hne H1 H2 Hp1 Hp2.
    destruct (decide (t1 = userData)) as [->|Hne1].
    + rewrite lookup_insert_eq in H1. injection H1 as <-.
      rewrite lookup_insert_ne in H2 by done.
      destruct (Hnew p Hp1) as [Hold|Hfresh].
      * by eapply (Hdisj userData t2 cbc c2 p).
      * apply Hfresh. by apply (Hcont _ _ H2).
    + rewrite lookup_insert_ne in H1 by done.
      destruct (decide (t2 = userData)) as [->|Hne2].
      * rewrite lookup_insert_eq in H2. injection H2 as <-.
        destruct (Hnew p Hp2) as [Hold|Hfresh].
        -- by eapply (Hdisj t1 userData c1 cbc p).
        -- apply Hfresh. by apply (Hcont _ _ H1).
      * rewrite lookup_insert_ne in H2 by done.
        by eapply (Hdisj t1 t2 c1 c2 p).
Qed.

Lemma called_tracked_ok w userData cbc x call :
  container_of w userData = Some cbc →
  tracked_ok w → tracked_ok (called w userData cbc x call).
Proof.
  intros Hcbc%container_of_Some Hok. unfold called.
  pose proof Hok as (Hheap & Hcont & _).
  destruct (Hcont _ _ Hcbc) as [Hnd Hlive].
  eapply tracked_ok_update; eauto.
Qed.

Lemma handed_over_tracked_ok w userData messageData cbc x call name buf :
  container_of w userData = Some cbc →
  tracked_ok w →
  tracked_ok
    (handed_over (called w userData cbc x call) userData messageData
       (mkContainer (with_self (cb cbc) x) (cdata cbc) (finalizer cbc))
       name (Npos (CHeap.brk (heap w))) buf).
Proof.
  intros Hcbc Hok.
  pose proof (called_tracked_ok w userData cbc x call Hcbc Hok) as Hok1.
  pose proof Hok as (Hheap & Hcont & _).
  apply container_of_Some in Hcbc.
  destruct (Hcont _ _ Hcbc) as [Hnd Hlive].
  assert (Npos (CHeap.brk (heap w)) ∉ cdata cbc) as Hfresh.
  { intros Hin. destruct (Hheap _ (Hlive _ Hin)) as [_ Hlt]. lia. }
  unfold handed_over.
  eapply tracked_ok_update; [|exact Hok1| | | | |].
  - unfold called. simpl. apply lookup_insert_eq.
  - intros q. simpl. destruct (decide (q = Npos (CHeap.brk (heap w)))) as [->|Hne].
    + intros _. split; [done|]. lia.
    + rewrite lookup_insert_ne by done. intros Hq.
      destruct (Hheap _ Hq) as [Hnn Hlt]. split; [done|]. lia.
  - intros q Hq. simpl in *.
    destruct (decide (q = Npos (CHeap.brk (heap w)))) as [->|Hne].
    + by rewrite lookup_insert_eq.
    + by rewrite lookup_insert_ne.
  - simpl. apply NoDup_app. split; [done|]. split.
    + intros q Hq ->%list_elem_of_singleton. done.
    + apply NoDup_singleton.
  - simpl. intros p [Hp| ->%list_elem_of_singleton]%elem_of_app.
    + rewrite lookup_insert_ne by (by intros <-). by apply Hlive.
    + by rewrite lookup_insert_eq.
  - simpl. intros p [Hp| ->%list_elem_of_singleton]%elem_of_app.
    + by left.
    + right. intros Hq. destruct (Hheap _ Hq) as [_ Hlt]. lia.
Qed.

(** The buffer-lifetime invariant holds before the first event of a scan
    and is kept by every event that the dispatcher handles. *)
Lemma scanCallbackFunc_tracked_ok w ctx message messageData userData v w' :
  scanCallbackFunc w ctx message messageData userData = Returned v w' →
  tracked_ok w → tracked_ok w'.
Proof.
  intros Hret Hok.
  destruct (scanCallbackFunc_returns _ _ _ _ _ _ _ Hret)
    as [(_ & _ & ->)|[(cbc & _ & _ & _ & ->)
       |(cbc & call & x & buf & abort & err & Hcbc & _ & _ & Hw)]];
    try done.
  destruct Hw as [[_ ->]|(_ & _ & ->)].
  - by apply called_tracked_ok.
  - by apply handed_over_tracked_ok.
Qed.

Lemma Invokes_implements w cbc s messageData message call x buf abort err :
  Invokes w cbc s messageData message call x buf abort err →
  handled message ∧ implements (cb cbc) message = true.
Proof.
  unfold handled, implements.
  destruct 1 as [c ? ? ? Hc _|c ? ? ? Hc _|c ? ? ? Hc _|c ? ? ? ? ? Hc _ _
                |c ? ? ? Hc _]; simpl; rewrite Hc; split; auto 10.
Qed.

End DispatcherProperties.

Section DispatcherClaims.

Context {T : Type}.
Implicit Types (w : World T) (cbc : scanCallbackContainer T).

(** C1. For an event of any of the five kinds whose capability method is
    invoked, the verdict that the dispatcher returns is the verdict mapping
    of the method's abort and error results: the error code when the error
    is non-nil, whatever abort is; else the abort code when abort is true;
    else the continue code. The dispatcher does return, with that one call
    made, unless [calloc] cannot serve a non-empty module-import payload. *)
Theorem verdict_mapping_is_uniform :
  ∀ w ctx message messageData userData cbc call x buf abort err,
    container_of w userData = Some cbc →
    Invokes w cbc (mkScanContext ctx) messageData message call x buf abort err →
    (∀ v w', scanCallbackFunc w ctx message messageData userData = Returned v w' →
             v = verdict_mapping abort err
             ∧ (is_Some err → v = CALLBACK_ERROR)
             ∧ (err = None → abort = true → v = CALLBACK_ABORT)
             ∧ (err = None → abort = false → v = CALLBACK_CONTINUE))
    ∧ (buf = [] ∨ can_allocate w buf →
       ∃ w', scanCallbackFunc w ctx message messageData userData
             = Returned (verdict_mapping abort err) w'
             ∧ calls w' = calls w ++ [call]).
Proof.
  intros w ctx message messageData userData cbc call x buf abort err Hcbc Hinv.
  rewrite (scanCallbackFunc_invokes _ _ _ _ _ _ _ _ _ _ _ Hcbc Hinv).
  split.
  - assert (∀ v, v = verdict_mapping abort err →
                 v = verdict_mapping abort err
                 ∧ (is_Some err → v = CALLBACK_ERROR)
                 ∧ (err = None → abort = true → v = CALLBACK_ABORT)
                 ∧ (err = None → abort = false → v = CALLBACK_CONTINUE)) as Hv.
    { intros v ->. split; [done|]. split; [|split].
      - by intros [e ->].
      - by intros -> ->.
      - by intros -> ->. }
    intros v w' Hret. apply Hv. repeat case_decide; congruence.
  - intros [->|Hfit].
    + simpl. eexists. split; [done|]. done.
    + case_decide; [by eexists|]. rewrite decide_True by done.
      by eexists.
Qed.

(** C6. For an event of any of the five kinds, when the callback object does
    not implement the capability that the kind requires, the dispatcher
    invokes nothing, changes nothing and returns the continue code. *)
Theorem missing_capability_is_skipped :
  ∀ w ctx message messageData userData cbc,
    container_of w userData = Some cbc →
    handled message →
    implements (cb cbc) message = false →
    scanCallbackFunc w ctx message messageData userData
    = Returned CALLBACK_CONTINUE w
    ∧ CALLBACK_CONTINUE = verdict_mapping false None.
Proof.
  intros w ctx message messageData userData cbc Hcbc _ Himpl.
  split; [|done]. by eapply scanCallbackFunc_skips.
Qed.

(** C7. When the token does not resolve to a callback container (it is
    unknown, or something else is registered under it), the dispatcher
    returns the error code for every message, and calls no method: the world,
    with its trace of calls and every registered object, is unchanged. *)
Theorem unresolved_token_is_error :
  ∀ w ctx message messageData userData,
    (∀ cbc, callbackData w !! userData ≠ Some (RegContainer cbc)) →
    scanCallbackFunc w ctx message messageData userData
    = Returned CALLBACK_ERROR w.
Proof.
  intros w ctx message messageData userData Hnone.
  apply scanCallbackFunc_unregistered.
  unfold container_of, Get, assertContainer.
  destruct (callbackData w !! userData) as [[c|]|] eqn:Hreg; try done.
  by destruct (Hnone c).
Qed.

(** C10. When the token resolves to a container and the message code is
    none of the five handled kinds, the dispatcher invokes nothing, changes
    nothing and returns the continue code. *)
Theorem unhandled_message_continues :
  ∀ w ctx message messageData userData cbc,
    container_of w userData = Some cbc →
    ¬ handled message →
    scanCallbackFunc w ctx message messageData userData
    = Returned CALLBACK_CONTINUE w.
Proof.
  intros w ctx message messageData userData cbc Hcbc Hnot.
  eapply scanCallbackFunc_skips; [done|].
  unfold implements, handled in *. repeat case_decide; try done; tauto.
Qed.

End DispatcherClaims.

Section ModuleImportClaims.

Context {T : Type}.
Implicit Types (w : World T) (cbc : scanCallbackContainer T).

Lemma tracked_called w userData cbc x call :
  tracked (called w userData cbc x call) userData = cdata cbc.
Proof.
  unfold tracked, container_of, Get, called. simpl.
  by rewrite lookup_insert_eq.
Qed.

Lemma tracked_handed_over w1 userData messageData cbc1 name p buf :
  tracked (handed_over w1 userData messageData cbc1 name p buf) userData
  = cdata cbc1 ++ [p].
Proof.
  unfold tracked, container_of, Get, handed_over. simpl.
  by rewrite lookup_insert_eq.
Qed.

Lemma read_handed_over w1 userData messageData cbc1 name p buf :
  CHeap.read p (length buf)
    (heap (handed_over w1 userData messageData cbc1 name p buf))
  = Some buf.
Proof.
  unfold CHeap.read, handed_over. simpl. rewrite lookup_insert_eq.
  rewrite bool_decide_eq_true_2 by done. by rewrite firstn_all.
Qed.

(** C5. When the module-import method returns a payload of length zero (nil
    or empty), the dispatcher allocates nothing, writes nothing into the
    engine's structure and tracks nothing, and still returns the verdict
    mapping of the method's abort and error results. *)
Theorem empty_payload_allocates_nothing :
  ∀ w ctx messageData userData cbc c mi x buf abort err,
    container_of w userData = Some cbc →
    asModuleImport (cb cbc) = Some c →
    imports w !! messageData = Some mi →
    c (mkScanContext ctx) (module_name mi) (self (cb cbc)) = (x, (buf, abort, err)) →
    length buf = 0%nat →
    ∃ w', scanCallbackFunc w ctx CALLBACK_MSG_IMPORT_MODULE messageData userData
          = Returned (verdict_mapping abort err) w'
          ∧ heap w' = heap w
          ∧ imports w' = imports w
          ∧ tracked w' userData = tracked w userData
          ∧ calls w' = calls w
                       ++ [CallImportModule (mkScanContext ctx) (module_name mi)].
Proof.
  intros w ctx messageData userData cbc c mi x buf abort err
    Hcbc Hc Hmi Hres Hlen.
  rewrite (scanCallbackFunc_import _ _ _ _ _ _ _ _ _ _ _ Hcbc Hc Hmi Hres).
  rewrite decide_True by done.
  eexists. split; [done|]. repeat split.
  rewrite tracked_called. unfold tracked. by rewrite Hcbc.
Qed.

(** C4. When the module-import method returns a payload [buf] of positive
    length and [calloc] can serve it, the address and length that the
    dispatcher writes into the engine's structure designate a live block
    that holds exactly the bytes of [buf], and the length is [length buf];
    the block is the one the container now tracks. *)
Theorem payload_is_copied_exactly :
  ∀ w ctx messageData userData cbc c mi x buf abort err,
    container_of w userData = Some cbc →
    asModuleImport (cb cbc) = Some c →
    imports w !! messageData = Some mi →
    c (mkScanContext ctx) (module_name mi) (self (cb cbc)) = (x, (buf, abort, err)) →
    (0 < length buf)%nat →
    can_allocate w buf →
    ∃ w' p,
      scanCallbackFunc w ctx CALLBACK_MSG_IMPORT_MODULE messageData userData
      = Returned (verdict_mapping abort err) w'
      ∧ imports w' !! messageData
        = Some {| module_name := module_name mi; module_data := p;
                  module_data_size := length buf |}
      ∧ p ≠ NULL
      ∧ CHeap.read p (length buf) (heap w') = Some buf
      ∧ CHeap.blocks (heap w') !! p = Some buf
      ∧ tracked w' userData = tracked w userData ++ [p].
Proof.
  intros w ctx messageData userData cbc c mi x buf abort err
    Hcbc Hc Hmi Hres Hlen Hfit.
  rewrite (scanCallbackFunc_import _ _ _ _ _ _ _ _ _ _ _ Hcbc Hc Hmi Hres).
  rewrite decide_False by lia. rewrite decide_True by done.
  eexists _, (Npos (CHeap.brk (heap w))). split; [done|].
  split; [by simpl; rewrite lookup_insert_eq|].
  split; [done|].
  split; [apply read_handed_over|].
  split; [by simpl; rewrite lookup_insert_eq|].
  rewrite tracked_handed_over. simpl. unfold tracked. by rewrite Hcbc.
Qed.

(** C3 (amended). For a module-import event whose method is invoked, a
    buffer is allocated, handed to the engine and tracked exactly when the
    returned payload is not empty, whether or not an error is returned with
    it. When the method returns a non-nil error the verdict is the error
    code, and with an empty payload nothing is allocated, handed over or
    tracked. The dispatcher returns unless [calloc] cannot serve the
    payload. *)
Theorem buffer_follows_payload_not_error :
  ∀ w ctx messageData userData cbc c mi x buf abort err,
    container_of w userData = Some cbc →
    asModuleImport (cb cbc) = Some c →
    imports w !! messageData = Some mi →
    c (mkScanContext ctx) (module_name mi) (self (cb cbc)) = (x, (buf, abort, err)) →
    (∀ v w',
       scanCallbackFunc w ctx CALLBACK_MSG_IMPORT_MODULE messageData userData
       = Returned v w' →
       (is_Some err → v = CALLBACK_ERROR)
       ∧ (buf = [] →
          heap w' = heap w ∧ imports w' = imports w
          ∧ tracked w' userData = tracked w userData)
       ∧ (buf ≠ [] →
          ∃ p, p ≠ NULL
               ∧ CHeap.blocks (heap w') !! p = Some buf
               ∧ imports w' !! messageData
                 = Some {| module_name := module_name mi; module_data := p;
                           module_data_size := length buf |}
               ∧ tracked w' userData = tracked w userData ++ [p]))
    ∧ (buf = [] ∨ can_allocate w buf →
       ∃ v w',
         scanCallbackFunc w ctx CALLBACK_MSG_IMPORT_MODULE messageData userData
         = Returned v w').
Proof.
  intros w ctx messageData userData cbc c mi x buf abort err
    Hcbc Hc Hmi Hres.
  rewrite (scanCallbackFunc_import _ _ _ _ _ _ _ _ _ _ _ Hcbc Hc Hmi Hres).
  assert (tracked w userData = cdata cbc) as Htr
    by (unfold tracked; by rewrite Hcbc).
  split.
  - intros v w' Hret. split; [|split].
    + intros [e ->]. repeat case_decide; by inversion Hret.
    + intros ->. simpl in Hret. inversion Hret; subst.
      by rewrite tracked_called.
    + intros Hne. rewrite decide_False in Hret
        by (by destruct buf).
      case_decide; [|done]. inversion Hret; subst.
      exists (Npos (CHeap.brk (heap w))). split; [done|].
      rewrite tracked_handed_over. simpl.
      by rewrite !lookup_insert_eq, Htr.
  - intros [->|Hfit]; simpl; [by eexists _, _|].
    case_decide; [by eexists _, _|].
    rewrite decide_True by done. by eexists _, _.
Qed.

End ModuleImportClaims.

(** ** What the dispatcher leaves alone *)

Section DispatcherFrame.

Context {T : Type}.
Implicit Types (w : World T) (cbc : scanCallbackContainer T).

Lemma container_of_called w userData cbc x call :
  container_of (called w userData cbc x call) userData
  = Some (mkContainer (with_self (cb cbc) x) (cdata cbc) (finalizer cbc)).
Proof.
  unfold container_of, Get, called. simpl. by rewrite lookup_insert_eq.
Qed.

Lemma container_of_handed_over w1 userData messageData cbc1 name p buf :
  container_of (handed_over w1 userData messageData cbc1 name p buf) userData
  = Some (addCPointer cbc1 p).
Proof.
  unfold container_of, Get, handed_over. simpl. by rewrite lookup_insert_eq.
Qed.

Lemma Invokes_call_kind w cbc s messageData message call x buf abort err :
  Invokes w cbc s messageData message call x buf abort err →
  call_kind call = message
  ∧ (message ≠ CALLBACK_MSG_IMPORT_MODULE → buf = []).
Proof. destruct 1; done. Qed.

(** X1. The verdict is one of the three codes of the engine, and the
    dispatcher adds no decision of its own: it returns the abort code only
    when a callback method returned abort = true with a nil error, and the
    error code only when the token did not resolve to a container or a
    callback method returned a non-nil error. *)
Theorem dispatcher_decides_nothing_itself :
  ∀ w ctx message messageData userData v w',
    scanCallbackFunc w ctx message messageData userData = Returned v w' →
    (v = CALLBACK_CONTINUE ∨ v = CALLBACK_ABORT ∨ v = CALLBACK_ERROR)
    ∧ (v = CALLBACK_ABORT →
       ∃ cbc call x buf,
         container_of w userData = Some cbc
         ∧ Invokes w cbc (mkScanContext ctx) messageData message call x buf
             true None)
    ∧ (v = CALLBACK_ERROR →
       container_of w userData = None
       ∨ ∃ cbc call x buf abort e,
           container_of w userData = Some cbc
           ∧ Invokes w cbc (mkScanContext ctx) messageData message call x buf
               abort (Some e)).
Proof.
  intros w ctx message messageData userData v w' Hret.
  destruct (scanCallbackFunc_returns _ _ _ _ _ _ _ Hret)
    as [(Hnone & -> & _)|[(cbc & _ & _ & -> & _)
       |(cbc & call & x & buf & abort & err & Hcbc & Hinv & -> & _)]].
  - split; [auto|]. split; [done|]. by left.
  - split; [auto|]. split; done.
  - destruct err as [e|], abort; simpl.
    + split; [auto|]. split; [done|]. intros _. right. by eexists _, _, _, _, _, _.
    + split; [auto|]. split; [done|]. intros _. right. by eexists _, _, _, _, _, _.
    + split; [auto|]. split; [|done]. intros _. by eexists _, _, _, _.
    + split; [auto|]. split; done.
Qed.

(** X2. An event only touches the container registered under its own token:
    every other registry entry is unchanged. The container itself is still
    registered afterwards with the same method set and the same finalizer
    flag, and the pointers it tracked are still tracked, in the same order,
    before any new one. With an unresolved token nothing changes at all. *)
Theorem dispatch_is_local_to_its_token :
  ∀ w ctx message messageData userData v w',
    scanCallbackFunc w ctx message messageData userData = Returned v w' →
    (∀ tok, tok ≠ userData → callbackData w' !! tok = callbackData w !! tok)
    ∧ (∀ cbc, container_of w userData = Some cbc →
         ∃ cbc', container_of w' userData = Some cbc'
                 ∧ same_methods (cb cbc') (cb cbc)
                 ∧ finalizer cbc' = finalizer cbc
                 ∧ cdata cbc `prefix_of` cdata cbc')
    ∧ (container_of w userData = None → w' = w).
Proof.
  intros w ctx message messageData userData v w' Hret.
  destruct (scanCallbackFunc_returns _ _ _ _ _ _ _ Hret)
    as [(Hnone & _ & ->)|[(cbc & Hcbc & _ & _ & ->)
       |(cbc & call & x & buf & abort & err & Hcbc & _ & _ & Hw)]].
  - split; [done|]. split; [|done]. intros cbc Hcbc. congruence.
  - split; [done|]. split; [|congruence].
    intros cbc0 Hcbc0. exists cbc0. by repeat split.
  - split; [|split; [|congruence]].
    + intros tok Hne. destruct Hw as [[_ ->]|(_ & _ & ->)]; simpl;
        by rewrite ?lookup_insert_ne.
    + intros cbc0 Hcbc0. assert (cbc0 = cbc) as -> by congruence.
      destruct Hw as [[_ ->]|(_ & _ & ->)].
      * rewrite container_of_called. eexists. split; [done|].
        by repeat split.
      * rewrite container_of_handed_over. eexists. split; [done|].
        repeat split. simpl. by apply prefix_app_r.
Qed.

(** X3. The dispatcher never calls [free]. When the live blocks lie below
    the allocation frontier, they still do afterwards, and every block that
    was live keeps its bytes: a payload handed to the engine by an earlier
    event is not disturbed by a later one. *)
Theorem dispatch_never_frees_or_overwrites :
  ∀ w ctx message messageData userData v w',
    scanCallbackFunc w ctx message messageData userData = Returned v w' →
    CHeap.freed (heap w') = CHeap.freed (heap w)
    ∧ (heap_ok (heap w) →
       heap_ok (heap w')
       ∧ ∀ q bs, CHeap.blocks (heap w) !! q = Some bs →
                 CHeap.blocks (heap w') !! q = Some bs).
Proof.
  intros w ctx message messageData userData v w' Hret.
  destruct (scanCallbackFunc_returns _ _ _ _ _ _ _ Hret)
    as [(_ & _ & ->)|[(cbc & _ & _ & _ & ->)
       |(cbc & call & x & buf & abort & err & _ & _ & _ & Hw)]];
    try done.
  destruct Hw as [[_ ->]|(_ & _ & ->)]; [done|].
  split; [done|]. intros Hok. simpl. split.
  - intros q. destruct (decide (q = Npos (CHeap.brk (heap w)))) as [->|Hne].
    + intros _. split; [done|]. simpl. lia.
    + simpl. rewrite lookup_insert_ne by done. intros Hq.
      destruct (Hok _ Hq) as [Hnn Hlt]. split; [done|]. lia.
  - intros q bs Hq.
    destruct (Hok q ltac:(by eexists)) as [_ Hlt].
    rewrite lookup_insert_ne; [done|]. intros <-. lia.
Qed.

(** X4. Only a module-import event can allocate or write into the engine's
    structures: for every other message code the C heap, the engine's
    [YR_MODULE_IMPORT] structures and the tracked pointers are unchanged. *)
Theorem only_module_import_allocates :
  ∀ w ctx message messageData userData v w',
    scanCallbackFunc w ctx message messageData userData = Returned v w' →
    message ≠ CALLBACK_MSG_IMPORT_MODULE →
    heap w' = heap w
    ∧ imports w' = imports w
    ∧ tracked w' userData = tracked w userData.
Proof.
  intros w ctx message messageData userData v w' Hret Hmsg.
  destruct (scanCallbackFunc_returns _ _ _ _ _ _ _ Hret)
    as [(_ & _ & ->)|[(cbc & _ & _ & _ & ->)
       |(cbc & call & x & buf & abort & err & Hcbc & Hinv & _ & Hw)]];
    try done.
  destruct (Invokes_call_kind _ _ _ _ _ _ _ _ _ _ Hinv) as [_ Hbuf].
  destruct Hw as [[_ ->]|(Hne & _ & _)]; [|by destruct (Hne (Hbuf Hmsg))].
  rewrite tracked_called. unfold tracked. by rewrite Hcbc.
Qed.

(** X5. In the engine's memory an event changes at most the structure its
    data pointer designates, and there only the data pointer and size: the
    module name stays, every other structure stays, and no structure
    appears where there was none. *)
Theorem import_writes_only_its_structure :
  ∀ w ctx message messageData userData v w',
    scanCallbackFunc w ctx message messageData userData = Returned v w' →
    (∀ a, a ≠ messageData → imports w' !! a = imports w !! a)
    ∧ (∀ mi, imports w !! messageData = Some mi →
         ∃ mi', imports w' !! messageData = Some mi'
                ∧ module_name mi' = module_name mi)
    ∧ (imports w !! messageData = None → imports w' !! messageData = None).
Proof.
  intros w ctx message messageData userData v w' Hret.
  destruct (scanCallbackFunc_returns _ _ _ _ _ _ _ Hret)
    as [(_ & _ & ->)|[(cbc & _ & _ & _ & ->)
       |(cbc & call & x & buf & abort & err & Hcbc & Hinv & _ & Hw)]];
    try (by repeat split; eauto).
  destruct Hw as [[_ ->]|(Hne & _ & ->)]; [by repeat split; eauto|].
  simpl. split; [|split].
  - intros a Ha. by rewrite lookup_insert_ne.
  - intros mi Hmi. rewrite lookup_insert_eq. eexists. split; [done|].
    destruct Hinv; try done. simpl. congruence.
  - intros Hmi. destruct Hinv; try done. congruence.
Qed.

(** X6. One event makes at most one method call. When the token resolves
    and the dispatcher returns, exactly one call is recorded, of the kind of
    the message, if the callback object implements the capability of that
    kind, and none otherwise. *)
Theorem one_call_iff_capability_implemented :
  ∀ w ctx message messageData userData cbc v w',
    container_of w userData = Some cbc →
    scanCallbackFunc w ctx message messageData userData = Returned v w' →
    if implements (cb cbc) message
    then ∃ call, calls w' = calls w ++ [call] ∧ call_kind call = message
    else calls w' = calls w.
Proof.
  intros w ctx message messageData userData cbc v w' Hcbc Hret.
  destruct (scanCallbackFunc_returns _ _ _ _ _ _ _ Hret)
    as [(Hnone & _ & _)|[(cbc0 & Hcbc0 & Himpl & _ & ->)
       |(cbc0 & call & x & buf & abort & err & Hcbc0 & Hinv & _ & Hw)]].
  - congruence.
  - assert (cbc0 = cbc) as -> by congruence. by rewrite Himpl.
  - assert (cbc0 = cbc) as -> by congruence.
    destruct (Invokes_implements _ _ _ _ _ _ _ _ _ _ Hinv) as [_ ->].
    destruct (Invokes_call_kind _ _ _ _ _ _ _ _ _ _ Hinv) as [Hkind _].
    exists call. split; [|done].
    by destruct Hw as [[_ ->]|(_ & _ & ->)].
Qed.

End DispatcherFrame.

(** ** Buffers over a whole scan *)

Section BufferLifetime.

Context {T : Type}.
Implicit Types (w : World T) (cbc : scanCallbackContainer T).

Lemma all_fresh_tracked_ok w :
  heap_ok (heap w) → all_fresh w → tracked_ok w.
Proof.
  intros Hheap Hfresh. split; [done|]. split.
  - intros tok c Hc. destruct (Hfresh _ _ Hc) as [sc ->]. simpl.
    split; [apply NoDup_nil_2|]. intros p Hp. by apply elem_of_nil in Hp.
  - intros t1 t2 c1 c2 p _ H1 _ Hp. destruct (Hfresh _ _ H1) as [sc ->].
    by apply elem_of_nil in Hp.
Qed.

Lemma free_all_brk (ps : list ptr) : ∀ h,
  CHeap.brk (foldl (λ h p, CHeap.free p h) h ps) = CHeap.brk h.
Proof.
  induction ps as [|p ps IH]; intros h; simpl; [done|]. by rewrite IH.
Qed.

(** What one event on token [userData] does to the blocks. *)
Lemma scanCallbackFunc_blocks w ctx message messageData userData v w' :
  scanCallbackFunc w ctx message messageData userData = Returned v w' →
  tracked w userData `prefix_of` tracked w' userData
  ∧ CHeap.freed (heap w') = CHeap.freed (heap w)
  ∧ (CHeap.brk (heap w) ≤ CHeap.brk (heap w'))%positive
  ∧ (∀ q, q ∉ tracked w' userData →
          CHeap.blocks (heap w') !! q = CHeap.blocks (heap w) !! q)
  ∧ (∀ q, q ∈ tracked w' userData →
          q ∈ tracked w userData ∨ (Npos (CHeap.brk (heap w)) ≤ q)%N).
Proof.
  intros Hret.
  destruct (scanCallbackFunc_returns _ _ _ _ _ _ _ Hret)
    as [(_ & _ & ->)|[(cbc & _ & _ & _ & ->)
       |(cbc & call & x & buf & abort & err & Hcbc & _ & _ & Hw)]];
    try (by repeat split; auto; lia).
  assert (tracked w userData = cdata cbc) as Htr
    by (unfold tracked; by rewrite Hcbc).
  destruct Hw as [[_ ->]|(_ & _ & ->)].
  - rewrite tracked_called, Htr. repeat split; auto; simpl; lia.
  - rewrite tracked_handed_over, Htr. simpl.
    split; [by apply prefix_app_r|]. split; [done|]. split; [lia|]. split.
    + intros q Hq. apply lookup_insert_ne. intros <-.
      apply Hq, elem_of_app. right. by apply list_elem_of_singleton.
    + intros q [Hq| ->%list_elem_of_singleton]%elem_of_app; [by left|].
      right. lia.
Qed.

(** The same over a sequence of events that all carry the token. *)
Lemma dispatch_all_blocks (evs : list Event) (userData : ptr) : ∀ w vs w',
  Forall (λ e, ev_userData e = userData) evs →
  tracked_ok w →
  dispatch_all evs w = Some (vs, w') →
  tracked_ok w'
  ∧ length vs = length evs
  ∧ tracked w userData `prefix_of` tracked w' userData
  ∧ CHeap.freed (heap w') = CHeap.freed (heap w)
  ∧ (CHeap.brk (heap w) ≤ CHeap.brk (heap w'))%positive
  ∧ (∀ q, q ∉ tracked w' userData →
          CHeap.blocks (heap w') !! q = CHeap.blocks (heap w) !! q)
  ∧ (∀ q, q ∈ tracked w' userData →
          q ∈ tracked w userData ∨ (Npos (CHeap.brk (heap w)) ≤ q)%N).
Proof.
  induction evs as [|e evs IH]; intros w vs w' Htok Hok Hrun; simpl in Hrun.
  - injection Hrun as <- <-.
    split; [done|]. split; [done|]. split; [done|]. split; [done|].
    split; [lia|]. split; [done|]. intros q Hq. by left.
  - apply Forall_cons in Htok as [He Htok].
    destruct (scanCallbackFunc w (ev_ctx e) (ev_message e) (ev_messageData e)
                (ev_userData e)) as [v w1|] eqn:Hstep; [|done].
    destruct (dispatch_all evs w1) as [[vs1 w2]|] eqn:Hrest; [|done].
    injection Hrun as <- <-.
    pose proof (scanCallbackFunc_tracked_ok _ _ _ _ _ _ _ Hstep Hok) as Hok1.
    rewrite He in Hstep.
    destruct (scanCallbackFunc_blocks _ _ _ _ _ _ _ Hstep)
      as (Hpre1 & Hfreed1 & Hbrk1 & Hsame1 & Hnew1).
    destruct (IH _ _ _ Htok Hok1 Hrest)
      as (Hok2 & Hlen & Hpre2 & Hfreed2 & Hbrk2 & Hsame2 & Hnew2).
    split; [done|]. split; [simpl; by rewrite Hlen|].
    split; [by etrans|]. split; [congruence|]. split; [lia|]. split.
    + intros q Hq. rewrite Hsame2 by done. apply Hsame1.
      intros Hq1. apply Hq. by eapply elem_of_prefix.
    + intros q Hq. destruct (Hnew2 q Hq) as [Hq1|Hge].
      * apply Hnew1, Hq1.
      * right. lia.
Qed.

(** X8. In a scan that starts with containers as
    [makeScanCallbackContainer] made them, whatever events the engine sends
    and to whatever tokens, every registered container tracks pairwise
    distinct pointers, each of them a live block, and no block is tracked by
    two containers; one verdict is returned per event. *)
Theorem scan_keeps_tracked_buffers_distinct_and_live :
  ∀ (evs : list Event) w vs w',
    heap_ok (heap w) →
    all_fresh w →
    dispatch_all evs w = Some (vs, w') →
    length vs = length evs
    ∧ tracked_ok w'
    ∧ ∀ tok c, callbackData w' !! tok = Some (RegContainer c) →
               NoDup (cdata c)
               ∧ ∀ p, p ∈ cdata c → is_Some (CHeap.blocks (heap w') !! p).
Proof.
  intros evs w vs w' Hheap Hfresh.
  pose proof (all_fresh_tracked_ok _ Hheap Hfresh) as Hok. clear Hheap Hfresh.
  revert w vs w' Hok.
  induction evs as [|e evs IH]; intros w vs w' Hok Hrun; simpl in Hrun.
  - injection Hrun as <- <-. split; [done|]. split; [done|]. apply Hok.
  - destruct (scanCallbackFunc w (ev_ctx e) (ev_message e) (ev_messageData e)
                (ev_userData e)) as [v w1|] eqn:Hstep; [|done].
    destruct (dispatch_all evs w1) as [[vs1 w2]|] eqn:Hrest; [|done].
    injection Hrun as <- <-.
    pose proof (scanCallbackFunc_tracked_ok _ _ _ _ _ _ _ Hstep Hok) as Hok1.
    destruct (IH _ _ _ Hok1 Hrest) as (Hlen & Hok2 & Hall).
    split; [simpl; by rewrite Hlen|]. done.
Qed.

Lemma tracked_finalize_registered w userData :
  tracked (finalize_registered w userData) userData = [].
Proof.
  unfold finalize_registered, tracked.
  destruct (container_of w userData) as [c|] eqn:Hc; simpl.
  - unfold container_of, Get. simpl. by rewrite lookup_insert_eq.
  - by rewrite Hc.
Qed.

Lemma heap_finalize_registered w userData :
  heap (finalize_registered w userData)
  = foldl (λ h p, CHeap.free p h) (heap w) (tracked w userData).
Proof.
  unfold finalize_registered, tracked.
  by destruct (container_of w userData) as [c|].
Qed.

(** X9. No leak and no double free over a scan: when a container starts a
    scan tracking nothing and all events carry its token, then releasing it
    after the scan frees every block allocated during the scan, each once,
    and the live blocks of the C heap are again exactly those from before
    the scan, bytes included. *)
Theorem finalize_after_scan_restores_heap :
  ∀ (evs : list Event) (userData : ptr) w vs w',
    tracked_ok w →
    tracked w userData = [] →
    Forall (λ e, ev_userData e = userData) evs →
    dispatch_all evs w = Some (vs, w') →
    let w'' := finalize_registered w' userData in
    CHeap.blocks (heap w'') = CHeap.blocks (heap w)
    ∧ CHeap.freed (heap w'') = CHeap.freed (heap w) ++ tracked w' userData
    ∧ NoDup (tracked w' userData)
    ∧ tracked w'' userData = [].
Proof.
  intros evs userData w vs w' Hok Hnone Htok Hrun w''.
  destruct (dispatch_all_blocks _ _ _ _ _ Htok Hok Hrun)
    as (Hok' & _ & _ & Hfreed & _ & Hsame & Hnew).
  subst w''. rewrite heap_finalize_registered, tracked_finalize_registered.
  rewrite free_all_freed, Hfreed.
  split; [|split; [done|split; [|done]]].
  - apply map_eq. intros q. rewrite free_all_blocks.
    case_bool_decide as Hq; [|by apply Hsame].
    destruct (Hnew q Hq) as [Hq0|Hge].
    + rewrite Hnone in Hq0. by apply elem_of_nil in Hq0.
    + destruct (CHeap.blocks (heap w) !! q) as [bs|] eqn:Hlive; [|done].
      destruct Hok as (Hheap & _).
      destruct (Hheap q ltac:(by eexists)) as [_ Hlt]. lia.
  - unfold tracked. destruct (container_of w' userData) as [c|] eqn:Hc;
      simpl; [|apply NoDup_nil_2].
    destruct Hok' as (_ & Hcont & _).
    by apply (Hcont userData c), container_of_Some.
Qed.

(** X10. Releasing one container keeps the buffer invariant and never frees
    a buffer of another container: every pointer tracked under another
    token designates the same live block as before. *)
Theorem finalize_spares_other_containers :
  ∀ w (userData : ptr),
    tracked_ok w →
    tracked_ok (finalize_registered w userData)
    ∧ ∀ tok c p,
        tok ≠ userData →
        callbackData w !! tok = Some (RegContainer c) →
        p ∈ cdata c →
        callbackData (finalize_registered w userData) !! tok
        = Some (RegContainer c)
        ∧ is_Some (CHeap.blocks (heap w) !! p)
        ∧ CHeap.blocks (heap (finalize_registered w userData)) !! p
          = CHeap.blocks (heap w) !! p.
Proof.
  intros w userData Hok.
  pose proof Hok as (Hheap & Hcont & Hdisj).
  assert (∀ tok c p, tok ≠ userData →
            callbackData w !! tok = Some (RegContainer c) →
            p ∈ cdata c → p ∉ tracked w userData) as Hother.
  { intros tok c p Hne Hc Hp. unfold tracked.
    destruct (container_of w userData) as [c0|] eqn:Hc0; simpl.
    - apply container_of_Some in Hc0. by eapply (Hdisj tok userData c c0).
    - apply not_elem_of_nil. }
  assert (∀ tok, tok ≠ userData →
            callbackData (finalize_registered w userData) !! tok
            = callbackData w !! tok) as Hreg.
  { intros tok Hne. unfold finalize_registered.
    destruct (container_of w userData); simpl; [|done].
    by rewrite lookup_insert_ne. }
  assert (∀ tok c p, tok ≠ userData →
            callbackData w !! tok = Some (RegContainer c) →
            p ∈ cdata c →
            CHeap.blocks (heap (finalize_registered w userData)) !! p
            = CHeap.blocks (heap w) !! p) as Hlive.
  { intros tok c p Hne Hc Hp.
    rewrite heap_finalize_registered, free_all_blocks.
    rewrite bool_decide_eq_false_2; [done|]. by eapply Hother. }
  split.
  - split; [|split].
    + intros q. rewrite heap_finalize_registered, free_all_blocks, free_all_brk.
      case_bool_decide; [by intros [? ?]|]. apply Hheap.
    + intros tok c Hc. destruct (decide (tok = userData)) as [->|Hne].
      * pose proof (tracked_finalize_registered w userData) as Hnil.
        unfold tracked in Hnil. apply container_of_Some in Hc.
        rewrite Hc in Hnil. simpl in Hnil. rewrite Hnil.
        split; [apply NoDup_nil_2|]. intros p Hp. by apply elem_of_nil in Hp.
      * rewrite Hreg in Hc by done. destruct (Hcont _ _ Hc) as [Hnd Hl].
        split; [done|]. intros p Hp. rewrite (Hlive tok c p); auto.
    + intros t1 t2 c1 c2 p Hne H1 H2 Hp1.
      pose proof (tracked_finalize_registered w userData) as Hnil.
      unfold tracked in Hnil.
      destruct (decide (t1 = userData)) as [->|Hne1].
      * apply container_of_Some in H1. rewrite H1 in Hnil. simpl in Hnil.
        rewrite Hnil in Hp1. by apply elem_of_nil in Hp1.
      * destruct (decide (t2 = userData)) as [->|Hne2].
        -- apply container_of_Some in H2. rewrite H2 in Hnil. simpl in Hnil.
           rewrite Hnil. apply not_elem_of_nil.
        -- rewrite Hreg in H1, H2 by done.
           exact (Hdisj t1 t2 c1 c2 p Hne H1 H2 Hp1).
  - intros tok c p Hne Hc Hp. split; [by rewrite Hreg|].
    split; [by apply (Hcont tok c)|]. by eapply Hlive.
Qed.

(** X11. Nothing seals a released container. A module-import event that
    arrives after [finalize] still allocates, hands over and tracks its
    payload, but the container's finalizer stays cleared: the new buffer is
    the only one tracked and no finalizer is registered to free it. *)
Theorem import_after_finalize_has_no_finalizer :
  ∀ w ctx messageData userData cbc c mi x buf abort err,
    container_of w userData = Some cbc →
    asModuleImport (cb cbc) = Some c →
    imports w !! messageData = Some mi →
    c (mkScanContext ctx) (module_name mi) (self (cb cbc)) = (x, (buf, abort, err)) →
    buf ≠ [] →
    can_allocate (finalize_registered w userData) buf →
    ∃ w' cbc' p,
      scanCallbackFunc (finalize_registered w userData) ctx
        CALLBACK_MSG_IMPORT_MODULE messageData userData
      = Returned (verdict_mapping abort err) w'
      ∧ container_of w' userData = Some cbc'
      ∧ cdata cbc' = [p]
      ∧ finalizer cbc' = false
      ∧ CHeap.blocks (heap w') !! p = Some buf.
Proof.
  intros w ctx messageData userData cbc c mi x buf abort err
    Hcbc Hc Hmi Hres Hne Hfit.
  set (w0 := finalize_registered w userData) in *.
  assert (container_of w0 userData
          = Some (mkContainer (cb cbc) [] false)) as Hcbc0.
  { subst w0. unfold finalize_registered. rewrite Hcbc. simpl.
    unfold container_of, Get. simpl. by rewrite lookup_insert_eq. }
  assert (imports w0 !! messageData = Some mi) as Hmi0.
  { subst w0. unfold finalize_registered. by rewrite Hcbc. }
  rewrite (scanCallbackFunc_import w0 ctx messageData userData
             (mkContainer (cb cbc) [] false) c mi x buf abort err
             Hcbc0 Hc Hmi0 Hres).
  rewrite decide_False by (by destruct buf).
  rewrite decide_True by done.
  eexists _, _, _. split; [done|].
  rewrite container_of_handed_over. split; [done|]. simpl.
  split; [done|]. split; [done|]. by rewrite lookup_insert_eq.
Qed.

End BufferLifetime.

(** ** The recorder behind the dispatcher *)

Section RecorderRuns.

Context {MatchString : Type}.
Context (Identifier Namespace : Rule → string).
Context (Tags : Rule → list string).
Context (Metas : Rule → gmap string MetaValue).
Context (getMatchStrings : Rule → ScanContext → list MatchString).

Local Abbreviation recorder :=
  (MatchRules_RuleMatching Identifier Namespace Tags Metas getMatchStrings).
Local Abbreviation record_of :=
  (record_of Identifier Namespace Tags Metas getMatchStrings).
Local Abbreviation recorder_callback :=
  (MatchRules_callback Identifier Namespace Tags Metas getMatchStrings).

Implicit Types (w : World (@MatchRules MatchString)).

Lemma recorder_event w ctx message messageData userData c mr :
  container_of w userData = Some c →
  cb c = recorder_callback mr →
  ∃ w' c',
    scanCallbackFunc w ctx message messageData userData
    = Returned CALLBACK_CONTINUE w'
    ∧ container_of w' userData = Some c'
    ∧ cb c' = recorder_callback
                (mr ++ (record_of <$> rule_matched_events
                          [mkEvent ctx message messageData userData]))
    ∧ heap w' = heap w
    ∧ imports w' = imports w.
Proof.
  intros Hc Hcb. unfold rule_matched_events. simpl.
  destruct (decide (message = CALLBACK_MSG_RULE_MATCHING)) as [->|Hne].
  - assert (Invokes w c (mkScanContext ctx) messageData
              CALLBACK_MSG_RULE_MATCHING
              (CallRuleMatching (mkScanContext ctx) (mkRule messageData))
              (mr ++ [record_of (mkScanContext ctx, mkRule messageData)])
              [] false None) as Hinv.
    { eapply InvokesRuleMatching; [by rewrite Hcb|].
      rewrite Hcb. simpl. apply RuleMatching_unfold. }
    rewrite (scanCallbackFunc_invokes _ _ _ _ _ _ _ _ _ _ _ Hc Hinv). simpl.
    eexists _, _. split; [done|]. rewrite container_of_called.
    split; [done|]. simpl. by rewrite Hcb.
  - rewrite (scanCallbackFunc_skips w ctx message messageData userData c Hc).
    + exists w, c. rewrite app_nil_r. done.
    + rewrite Hcb. unfold implements. simpl. by repeat case_decide.
Qed.

(** X12. A scan whose callback object is a [MatchRules] cannot be stopped
    or killed by its callback: whatever events the engine sends to its
    token, the dispatcher returns the continue code for every one of them.
    Afterwards the [MatchRules] holds what it held before followed by one
    record per rule-matched event, in the order of the events; the C heap
    and the engine's structures are untouched. *)
Theorem recorder_scan_always_continues :
  ∀ (evs : list Event) (userData : ptr) w c mr,
    container_of w userData = Some c →
    cb c = recorder_callback mr →
    Forall (λ e, ev_userData e = userData) evs →
    ∃ w',
      dispatch_all evs w
      = Some (replicate (length evs) CALLBACK_CONTINUE, w')
      ∧ receiver w' userData
        = Some (mr ++ (record_of <$> rule_matched_events evs))
      ∧ heap w' = heap w
      ∧ imports w' = imports w.
Proof.
  induction evs as [|[ctx message messageData tok] evs IH];
    intros userData w c mr Hc Hcb Htok.
  - exists w. simpl. rewrite app_nil_r. unfold receiver.
    rewrite Hc. simpl. by rewrite Hcb.
  - apply Forall_cons in Htok as [Heq Htok]. simpl in Heq. subst tok.
    destruct (recorder_event w ctx message messageData userData c mr Hc Hcb)
      as (w1 & c1 & Hstep & Hc1 & Hcb1 & Hheap1 & Himp1).
    destruct (IH userData w1 c1 _ Hc1 Hcb1 Htok)
      as (w2 & Hrun & Hrecv & Hheap2 & Himp2).
    exists w2. cbn [dispatch_all ev_ctx ev_message ev_messageData ev_userData].
    rewrite Hstep, Hrun. split; [done|].
    split; [|split; congruence].
    rewrite Hrecv. f_equal. rewrite <- app_assoc. f_equal.
    change (mkEvent ctx message messageData userData :: evs)
      with ([mkEvent ctx message messageData userData] ++ evs).
    unfold rule_matched_events. by rewrite omap_app, fmap_app.
Qed.

(** X13. A record never carries a Go [int]: whatever the engine reports,
    the metadata of the appended record has exactly the keys of the rule's
    metadata and none of its values has dynamic type [int]. *)
Theorem recorded_metadata_has_no_int :
  ∀ (sc : ScanContext) (r : Rule) (mr : MatchRules) rec,
    last (recorder sc r mr).1 = Some rec →
    dom (mr_Meta rec) = dom (Metas r)
    ∧ ∀ s v, mr_Meta rec !! s = Some v → ∀ i, v ≠ VInt i.
Proof.
  intros sc r mr rec. rewrite RuleMatching_unfold. simpl.
  rewrite last_snoc. intros [= <-]. simpl. split.
  - apply dom_fmap_L.
  - intros s v. rewrite lookup_fmap.
    destruct (Metas r !! s) as [[]|]; simpl; intros [= <-]; done.
Qed.

End RecorderRuns.

(** X14. The conversion to [int32] keeps an integer up to a multiple of
    2^32 and nothing more: two integers are stored as the same number
    exactly when they differ by a multiple of 2^32, and converting again
    changes nothing. *)
Theorem int32_identifies_integers_modulo_2_32 :
  ∀ i j : Z,
    (int32 i = int32 j ↔ (i - j) mod 2 ^ 32 = 0)
    ∧ (int32 i - i) mod 2 ^ 32 = 0
    ∧ int32 (int32 i) = int32 i.
Proof.
  intros i j.
  assert (∀ a b, int32 a = int32 b ↔ (a - b) mod 2 ^ 32 = 0) as Hiff.
  { intros a b. unfold int32. rewrite <- Z.cong_iff_0.
    rewrite <- (Z.add_cancel_r _ _ (2 ^ 31)), !Z.sub_add.
    rewrite (Z.cong_iff_0 (a + 2 ^ 31)), (Z.cong_iff_0 a).
    by replace (a + 2 ^ 31 - (b + 2 ^ 31)) with (a - b) by lia. }
  split; [apply Hiff|].
  assert (int32 (int32 i) = int32 i) as Hidem
    by (apply int32_fits, int32_range).
  split; [|done]. by apply Hiff.
Qed.

(** ** The bridge at work *)

Section Scenarios.

Local Open Scope N_scope.
Local Abbreviation s1 := (mkScanContext 1).
Local Abbreviation importer_container :=
  (makeScanCallbackContainer Demo.importer).

(** Rule "suspicious" matches, then the scan finishes: the dispatcher
    returns continue for both events and the recorder holds one record. *)
Example scenario_match_then_finished :
  ∃ w1 w2,
    scanCallbackFunc Demo.recorder_world 1 CALLBACK_MSG_RULE_MATCHING 100 7
    = Returned CALLBACK_CONTINUE w1
    ∧ scanCallbackFunc w1 1 CALLBACK_MSG_SCAN_FINISHED 0 7
      = Returned CALLBACK_CONTINUE w2
    ∧ (self ∘ cb) <$> container_of w2 7
      = Some [ {| mr_Rule := "suspicious"; mr_Namespace := "default";
                  mr_Tags := ["malware"%string];
                  mr_Meta := {[ "score"%string := VInt32 80 ]};
                  mr_Strings := [("$a"%string, 16)] |} ]
    ∧ calls w2 = [CallRuleMatching s1 (mkRule 100)].
Proof.
  eexists _, _. repeat split; reflexivity.
Qed.

(** Module "net": the callback returns no payload and an error; the verdict
    is the error code and nothing is allocated. *)
Example scenario_import_error_without_payload :
  ∃ w', scanCallbackFunc Demo.importer_world 1 CALLBACK_MSG_IMPORT_MODULE 202 7
        = Returned CALLBACK_ERROR w'
        ∧ heap w' = heap Demo.importer_world
        ∧ tracked w' 7 = [].
Proof. eexists. vm_compute. done. Qed.

(** Module "huge": [calloc] returns [NULL] and the copy faults. *)
Example scenario_allocation_failure :
  scanCallbackFunc Demo.importer_world 1 CALLBACK_MSG_IMPORT_MODULE 203 7
  = Crashed.
Proof. vm_compute. done. Qed.

(** C2, as stated, fails: the engine reports the integer 2147483648 for
    "score"; the recorder stores the 32-bit integer -2147483648. *)
Lemma oversized_integer_is_narrowed :
  let r := mkRule 101 in
  let stored := mr_Meta <$> last (Demo.recorder s1 r []).1 in
  Demo.Metas r !! "score"%string = Some (VInt 2147483648)
  ∧ stored ≫= (.!! "score"%string) = Some (VInt32 (-2147483648))
  ∧ stored ≫= (.!! "score"%string) ≠ Demo.Metas r !! "score"%string
  ∧ meta_number (VInt32 (-2147483648)) ≠ meta_number (VInt 2147483648)
  ∧ meta_width (VInt32 (-2147483648)) ≠ meta_width (VInt 2147483648).
Proof. vm_compute. repeat split; congruence. Qed.

(** C3, as stated, fails: for module "bad" the callback returns one byte of
    payload together with a non-nil error; the verdict is the error code,
    and yet a buffer is allocated, handed to the engine and tracked. *)
Lemma error_with_payload_still_allocates :
  Demo.importer_ImportModule s1 "bad" 0%nat
  = (1%nat, ([Byte.x41], true, Some "boom"%string))
  ∧ ∃ w',
      scanCallbackFunc Demo.importer_world 1 CALLBACK_MSG_IMPORT_MODULE 201 7
      = Returned CALLBACK_ERROR w'
      ∧ CHeap.blocks (heap Demo.importer_world) !! 1 = None
      ∧ CHeap.blocks (heap w') !! 1 = Some [Byte.x41]
      ∧ imports w' !! 201 = Some (mkModuleImport "bad" 1 1)
      ∧ tracked Demo.importer_world 7 = []
      ∧ tracked w' 7 = [1].
Proof. split; [done|]. eexists. vm_compute. done. Qed.

(** *** The theorems at concrete inputs *)

Lemma verdict_mapping_is_uniform_witness :
  container_of Demo.importer_world 7 = Some importer_container
  ∧ Invokes Demo.importer_world importer_container s1 0
      CALLBACK_MSG_SCAN_FINISHED (CallScanFinished s1) 1%nat [] true None
  ∧ ∃ w', scanCallbackFunc Demo.importer_world 1 CALLBACK_MSG_SCAN_FINISHED 0 7
          = Returned CALLBACK_ABORT w'
          ∧ calls w' = [CallScanFinished s1].
Proof.
  assert (container_of Demo.importer_world 7 = Some importer_container)
    as Hc by reflexivity.
  assert (Invokes Demo.importer_world importer_container s1 0
            CALLBACK_MSG_SCAN_FINISHED (CallScanFinished s1) 1%nat [] true None)
    as Hi by (eapply InvokesScanFinished; reflexivity).
  split; [exact Hc|]. split; [exact Hi|].
  destruct (verdict_mapping_is_uniform _ _ _ _ _ _ _ _ _ _ _ Hc Hi)
    as [_ Hret].
  apply Hret. left. reflexivity.
Defined.

Lemma RuleMatching_narrows_integer_metadata_witness :
  Demo.Metas (mkRule 100) !! "score"%string = Some (VInt 80)
  ∧ (mr_Meta <$> last (Demo.recorder s1 (mkRule 100) []).1)
      ≫= (.!! "score"%string) = Some (VInt32 (int32 80))
  ∧ fits_int32 80
  ∧ int32 80 = 80%Z.
Proof.
  assert (Demo.Metas (mkRule 100) !! "score"%string = Some (VInt 80))
    as Hm by reflexivity.
  assert (fits_int32 80) as Hfit by (unfold fits_int32; lia).
  destruct (RuleMatching_narrows_integer_metadata Demo.Identifier
              Demo.Namespace Demo.Tags Demo.Metas Demo.getMatchStrings
              s1 (mkRule 100) [] "score"%string) as [Hint _].
  destruct (Hint 80%Z Hm) as (Hstored & _ & Hiff).
  split; [exact Hm|]. split; [exact Hstored|]. split; [exact Hfit|].
  apply Hiff. exact Hfit.
Defined.

Lemma buffer_follows_payload_not_error_witness :
  container_of Demo.importer_world 7 = Some importer_container
  ∧ asModuleImport (cb importer_container) = Some Demo.importer_ImportModule
  ∧ imports Demo.importer_world !! 201 = Some (mkModuleImport "bad" NULL 0)
  ∧ Demo.importer_ImportModule s1 "bad" 0%nat
    = (1%nat, ([Byte.x41], true, Some "boom"%string))
  ∧ can_allocate Demo.importer_world [Byte.x41]
  ∧ ∃ v w',
      scanCallbackFunc Demo.importer_world 1 CALLBACK_MSG_IMPORT_MODULE 201 7
      = Returned v w'
      ∧ v = CALLBACK_ERROR
      ∧ ∃ p, p ≠ NULL
             ∧ CHeap.blocks (heap w') !! p = Some [Byte.x41]
             ∧ tracked w' 7 = tracked Demo.importer_world 7 ++ [p].
Proof.
  assert (can_allocate Demo.importer_world [Byte.x41])
    as Hfit by (unfold can_allocate; simpl; lia).
  repeat (split; [first [exact Hfit | reflexivity]|]).
  destruct (buffer_follows_payload_not_error Demo.importer_world 1 201 7
              importer_container Demo.importer_ImportModule
              (mkModuleImport "bad" NULL 0) 1%nat [Byte.x41] true
              (Some "boom"%string) eq_refl eq_refl eq_refl eq_refl)
    as [Hpost Hret].
  destruct (Hret (or_intror Hfit)) as (v & w' & Hrun).
  destruct (Hpost v w' Hrun) as (Herr & _ & Hbuf).
  exists v, w'. split; [exact Hrun|]. split; [apply Herr; by eexists|].
  destruct (Hbuf ltac:(discriminate)) as (p & Hp & Hblock & _ & Htracked).
  exists p. split; [exact Hp|]. split; [exact Hblock|]. exact Htracked.
Defined.

Lemma payload_is_copied_exactly_witness :
  container_of Demo.importer_world 7 = Some importer_container
  ∧ asModuleImport (cb importer_container) = Some Demo.importer_ImportModule
  ∧ imports Demo.importer_world !! 200 = Some (mkModuleImport "pe" NULL 0)
  ∧ Demo.importer_ImportModule s1 "pe" 0%nat
    = (1%nat, ([Byte.x4d; Byte.x5a], false, None))
  ∧ (0 < length [Byte.x4d; Byte.x5a])%nat
  ∧ can_allocate Demo.importer_world [Byte.x4d; Byte.x5a]
  ∧ ∃ w' p,
      scanCallbackFunc Demo.importer_world 1 CALLBACK_MSG_IMPORT_MODULE 200 7
      = Returned CALLBACK_CONTINUE w'
      ∧ imports w' !! 200 = Some (mkModuleImport "pe" p 2)
      ∧ CHeap.read p 2 (heap w') = Some [Byte.x4d; Byte.x5a].
Proof.
  assert (0 < length [Byte.x4d; Byte.x5a])%nat as Hlen by (simpl; lia).
  assert (can_allocate Demo.importer_world [Byte.x4d; Byte.x5a])
    as Hfit by (unfold can_allocate; simpl; lia).
  repeat (split; [first [exact Hfit | exact Hlen | reflexivity]|]).
  destruct (payload_is_copied_exactly Demo.importer_world 1 200 7
              importer_container Demo.importer_ImportModule
              (mkModuleImport "pe" NULL 0) 1%nat [Byte.x4d; Byte.x5a] false
              None eq_refl eq_refl eq_refl eq_refl Hlen Hfit)
    as (w' & p & Hrun & Hmi & _ & Hread & _).
  exists w', p. split; [exact Hrun|]. split; [exact Hmi|]. exact Hread.
Defined.

Lemma empty_payload_allocates_nothing_witness :
  container_of Demo.importer_world 7 = Some importer_container
  ∧ asModuleImport (cb importer_container) = Some Demo.importer_ImportModule
  ∧ imports Demo.importer_world !! 202 = Some (mkModuleImport "net" NULL 0)
  ∧ Demo.importer_ImportModule s1 "net" 0%nat
    = (1%nat, ([], false, Some "no data"%string))
  ∧ length (@nil Byte.byte) = 0%nat
  ∧ ∃ w',
      scanCallbackFunc Demo.importer_world 1 CALLBACK_MSG_IMPORT_MODULE 202 7
      = Returned CALLBACK_ERROR w'
      ∧ heap w' = heap Demo.importer_world
      ∧ imports w' = imports Demo.importer_world
      ∧ tracked w' 7 = tracked Demo.importer_world 7.
Proof.
  repeat (split; [reflexivity|]).
  destruct (empty_payload_allocates_nothing Demo.importer_world 1 202 7
              importer_container Demo.importer_ImportModule
              (mkModuleImport "net" NULL 0) 1%nat [] false
              (Some "no data"%string) eq_refl eq_refl eq_refl eq_refl eq_refl)
    as (w' & Hrun & Hheap & Himports & Htracked & _).
  exists w'. split; [exact Hrun|]. split; [exact Hheap|].
  split; [exact Himports|]. exact Htracked.
Defined.

Lemma missing_capability_is_skipped_witness :
  container_of Demo.importer_world 7 = Some importer_container
  ∧ handled CALLBACK_MSG_RULE_MATCHING
  ∧ implements (cb importer_container) CALLBACK_MSG_RULE_MATCHING = false
  ∧ scanCallbackFunc Demo.importer_world 1 CALLBACK_MSG_RULE_MATCHING 100 7
    = Returned CALLBACK_CONTINUE Demo.importer_world.
Proof.
  assert (handled CALLBACK_MSG_RULE_MATCHING) as Hh by (left; reflexivity).
  split; [reflexivity|]. split; [exact Hh|]. split; [reflexivity|].
  exact (proj1 (missing_capability_is_skipped Demo.importer_world 1
                  CALLBACK_MSG_RULE_MATCHING 100 7 importer_container
                  eq_refl Hh eq_refl)).
Defined.

Lemma unresolved_token_is_error_witness :
  (∀ cbc, callbackData Demo.importer_world !! 8 ≠ Some (RegContainer cbc))
  ∧ scanCallbackFunc Demo.importer_world 1 CALLBACK_MSG_SCAN_FINISHED 0 8
    = Returned CALLBACK_ERROR Demo.importer_world.
Proof.
  assert (∀ cbc, callbackData Demo.importer_world !! 8
                 ≠ Some (RegContainer cbc)) as Hnone
    by (intros cbc; vm_compute; discriminate).
  split; [exact Hnone|].
  exact (unresolved_token_is_error Demo.importer_world 1
           CALLBACK_MSG_SCAN_FINISHED 0 8 Hnone).
Defined.

Lemma unhandled_message_continues_witness :
  container_of Demo.importer_world 7 = Some importer_container
  ∧ ¬ handled 6
  ∧ scanCallbackFunc Demo.importer_world 1 6 0 7
    = Returned CALLBACK_CONTINUE Demo.importer_world.
Proof.
  assert (¬ handled 6) as Hno
    by (unfold handled; intros [H|[H|[H|[H|H]]]]; discriminate H).
  split; [reflexivity|]. split; [exact Hno|].
  exact (unhandled_message_continues Demo.importer_world 1 6 0 7
           importer_container eq_refl Hno).
Defined.

Lemma RuleMatching_appends_one_record_witness :
  let rec0 := record_of Demo.Identifier Demo.Namespace Demo.Tags Demo.Metas
                Demo.getMatchStrings (s1, mkRule 100) in
  let rec1 := record_of Demo.Identifier Demo.Namespace Demo.Tags Demo.Metas
                Demo.getMatchStrings (s1, mkRule 101) in
  let out := Demo.recorder s1 (mkRule 101) [rec0] in
  [rec0] !! 0%nat = Some rec0
  ∧ out.1 !! 0%nat = Some rec0
  ∧ out.1 = [rec0; rec1]
  ∧ length out.1 = 2%nat
  ∧ out.2 = (false, None).
Proof.
  intros rec0 rec1 out.
  pose proof (RuleMatching_appends_one_record Demo.Identifier Demo.Namespace
                Demo.Tags Demo.Metas Demo.getMatchStrings s1 (mkRule 101)
                [rec0]) as H.
  fold Demo.recorder in H. fold out in H.
  destruct out as [mr' [abort err]].
  destruct H as (Happ & Hlen & Hkeep & _ & Habort & Herr & _).
  split; [reflexivity|].
  split; [apply Hkeep; reflexivity|].
  split; [exact Happ|].
  split; [exact Hlen|].
  simpl. by rewrite Habort, Herr.
Defined.

Lemma finalize_frees_each_once_and_is_idempotent_witness :
  let c := mkContainer Demo.importer [1; 4] true in
  let h := {| CHeap.blocks := {[ 1 := [Byte.x4d; Byte.x5a]; 4 := [Byte.x41] ]};
              CHeap.brk := 6; CHeap.avail := 13; CHeap.freed := [] |} in
  NoDup (cdata c)
  ∧ CHeap.freed (finalize c h).2 = [1; 4]
  ∧ times_freed 1 (CHeap.freed (finalize c h).2) = 1%nat
  ∧ times_freed 4 (CHeap.freed (finalize c h).2) = 1%nat
  ∧ times_freed 5 (CHeap.freed (finalize c h).2) = 0%nat
  ∧ cdata (finalize c h).1 = []
  ∧ finalize (finalize c h).1 (finalize c h).2 = finalize c h.
Proof.
  intros c h.
  assert (NoDup (cdata c)) as Hnd
    by (apply NoDup_cons; split;
        [intros Hin%list_elem_of_singleton; discriminate Hin
        |apply NoDup_singleton]).
  pose proof (finalize_frees_each_once_and_is_idempotent nat c h) as H.
  destruct (finalize c h) as [c1 h1] eqn:Hfin.
  destruct H as (Hrel & Hcount & _ & Hnil & _ & _ & Hagain & _).
  simpl in Hrel, Hcount. rewrite drop_0 in Hrel, Hcount.
  split; [exact Hnd|]. split; [exact Hrel|].
  split; [exact (Hcount Hnd 1)|]. split; [exact (Hcount Hnd 4)|].
  split; [exact (Hcount Hnd 5)|]. split; [exact Hnil|]. exact Hagain.
Defined.

End Scenarios.

(** *** Further theorems at concrete inputs *)

Section MoreScenarios.

Local Open Scope N_scope.
Local Abbreviation s1 := (mkScanContext 1).
Local Abbreviation importer_container :=
  (makeScanCallbackContainer Demo.importer).

Lemma importer_world_heap_ok : heap_ok (heap Demo.importer_world).
Proof. intros p [bs Hp]. simpl in Hp. by rewrite lookup_empty in Hp. Qed.

Lemma importer_world_all_fresh : all_fresh Demo.importer_world.
Proof.
  intros tok c Hc. exists Demo.importer. simpl in Hc.
  apply lookup_insert_Some in Hc as [[_ Hc]|[_ Hc]]; [congruence|].
  apply lookup_singleton_Some in Hc as [_ Hc]. discriminate Hc.
Qed.

Lemma two_importers_all_fresh : all_fresh Demo.two_importers.
Proof.
  intros tok c Hc. exists Demo.importer. simpl in Hc.
  apply lookup_insert_Some in Hc as [[_ Hc]|[_ Hc]]; [congruence|].
  apply lookup_singleton_Some in Hc as [_ Hc]. congruence.
Qed.

Lemma dispatcher_decides_nothing_itself_witness :
  scanCallbackFunc Demo.importer_world 1 CALLBACK_MSG_SCAN_FINISHED 0 7
  = Returned CALLBACK_ABORT (Demo.after Demo.importer_world Demo.scan_finished)
  ∧ ∃ cbc call x buf,
      container_of Demo.importer_world 7 = Some cbc
      ∧ Invokes Demo.importer_world cbc s1 0 CALLBACK_MSG_SCAN_FINISHED
          call x buf true None.
Proof.
  assert (scanCallbackFunc Demo.importer_world 1 CALLBACK_MSG_SCAN_FINISHED 0 7
          = Returned CALLBACK_ABORT
              (Demo.after Demo.importer_world Demo.scan_finished))
    as Hrun by reflexivity.
  split; [exact Hrun|].
  destruct (dispatcher_decides_nothing_itself _ _ _ _ _ _ _ Hrun)
    as (_ & Habort & _).
  apply Habort. reflexivity.
Defined.

Lemma dispatch_is_local_to_its_token_witness :
  scanCallbackFunc Demo.importer_world 1 CALLBACK_MSG_IMPORT_MODULE 200 7
  = Returned CALLBACK_CONTINUE Demo.after_pe
  ∧ callbackData Demo.after_pe !! 8 = Some RegOther
  ∧ ∃ cbc', container_of Demo.after_pe 7 = Some cbc'
            ∧ same_methods (cb cbc') Demo.importer
            ∧ finalizer cbc' = true.
Proof.
  assert (scanCallbackFunc Demo.importer_world 1 CALLBACK_MSG_IMPORT_MODULE 200 7
          = Returned CALLBACK_CONTINUE Demo.after_pe) as Hrun by reflexivity.
  split; [exact Hrun|].
  destruct (dispatch_is_local_to_its_token _ _ _ _ _ _ _ Hrun)
    as (Hother & Hsame & _).
  split; [exact (Hother 8 ltac:(discriminate))|].
  destruct (Hsame importer_container eq_refl) as (cbc' & Hc & Hm & Hf & _).
  exists cbc'. split; [exact Hc|]. split; [exact Hm|]. exact Hf.
Defined.

Lemma after_pe_tracked_ok : tracked_ok Demo.after_pe.
Proof.
  apply (scanCallbackFunc_tracked_ok Demo.importer_world 1
           CALLBACK_MSG_IMPORT_MODULE 200 7 CALLBACK_CONTINUE);
    [reflexivity|].
  apply all_fresh_tracked_ok;
    [apply importer_world_heap_ok|apply importer_world_all_fresh].
Qed.

Lemma after_pe_heap_ok : heap_ok (heap Demo.after_pe).
Proof. apply after_pe_tracked_ok. Qed.

Lemma dispatch_never_frees_or_overwrites_witness :
  scanCallbackFunc Demo.after_pe 1 CALLBACK_MSG_IMPORT_MODULE 201 7
  = Returned CALLBACK_ERROR Demo.after_bad
  ∧ heap_ok (heap Demo.after_pe)
  ∧ CHeap.blocks (heap Demo.after_pe) !! 1 = Some [Byte.x4d; Byte.x5a]
  ∧ CHeap.freed (heap Demo.after_bad) = []
  ∧ CHeap.blocks (heap Demo.after_bad) !! 1 = Some [Byte.x4d; Byte.x5a].
Proof.
  assert (scanCallbackFunc Demo.after_pe 1 CALLBACK_MSG_IMPORT_MODULE 201 7
          = Returned CALLBACK_ERROR Demo.after_bad) as Hrun by reflexivity.
  split; [exact Hrun|]. split; [exact after_pe_heap_ok|].
  split; [reflexivity|].
  destruct (dispatch_never_frees_or_overwrites _ _ _ _ _ _ _ Hrun)
    as (Hfreed & Hkeep).
  split; [exact Hfreed|].
  destruct (Hkeep after_pe_heap_ok) as (_ & Hbytes).
  apply Hbytes. reflexivity.
Defined.

Lemma only_module_import_allocates_witness :
  scanCallbackFunc Demo.after_pe 1 CALLBACK_MSG_SCAN_FINISHED 0 7
  = Returned CALLBACK_ABORT (Demo.after Demo.after_pe Demo.scan_finished)
  ∧ CALLBACK_MSG_SCAN_FINISHED ≠ CALLBACK_MSG_IMPORT_MODULE
  ∧ heap (Demo.after Demo.after_pe Demo.scan_finished) = heap Demo.after_pe
  ∧ tracked (Demo.after Demo.after_pe Demo.scan_finished) 7 = [1].
Proof.
  assert (scanCallbackFunc Demo.after_pe 1 CALLBACK_MSG_SCAN_FINISHED 0 7
          = Returned CALLBACK_ABORT (Demo.after Demo.after_pe Demo.scan_finished))
    as Hrun by reflexivity.
  assert (CALLBACK_MSG_SCAN_FINISHED ≠ CALLBACK_MSG_IMPORT_MODULE)
    as Hne by discriminate.
  split; [exact Hrun|]. split; [exact Hne|].
  destruct (only_module_import_allocates _ _ _ _ _ _ _ Hrun Hne)
    as (Hheap & _ & Htracked).
  split; [exact Hheap|]. exact Htracked.
Defined.

Lemma import_writes_only_its_structure_witness :
  scanCallbackFunc Demo.importer_world 1 CALLBACK_MSG_IMPORT_MODULE 200 7
  = Returned CALLBACK_CONTINUE Demo.after_pe
  ∧ imports Demo.after_pe !! 201 = Some (mkModuleImport "bad" NULL 0)
  ∧ ∃ mi', imports Demo.after_pe !! 200 = Some mi'
           ∧ module_name mi' = "pe"%string.
Proof.
  assert (scanCallbackFunc Demo.importer_world 1 CALLBACK_MSG_IMPORT_MODULE 200 7
          = Returned CALLBACK_CONTINUE Demo.after_pe) as Hrun by reflexivity.
  split; [exact Hrun|].
  destruct (import_writes_only_its_structure _ _ _ _ _ _ _ Hrun)
    as (Hother & Hname & _).
  split; [exact (Hother 201 ltac:(discriminate))|].
  exact (Hname (mkModuleImport "pe" NULL 0) eq_refl).
Defined.

Lemma one_call_iff_capability_implemented_witness :
  container_of Demo.importer_world 7 = Some importer_container
  ∧ scanCallbackFunc Demo.importer_world 1 CALLBACK_MSG_IMPORT_MODULE 200 7
    = Returned CALLBACK_CONTINUE Demo.after_pe
  ∧ scanCallbackFunc Demo.importer_world 1 CALLBACK_MSG_MODULE_IMPORTED 200 7
    = Returned CALLBACK_CONTINUE Demo.importer_world
  ∧ (∃ call, calls Demo.after_pe = [call]
             ∧ call_kind call = CALLBACK_MSG_IMPORT_MODULE)
  ∧ calls Demo.importer_world = [].
Proof.
  assert (scanCallbackFunc Demo.importer_world 1 CALLBACK_MSG_IMPORT_MODULE 200 7
          = Returned CALLBACK_CONTINUE Demo.after_pe) as Hrun by reflexivity.
  assert (scanCallbackFunc Demo.importer_world 1 CALLBACK_MSG_MODULE_IMPORTED 200 7
          = Returned CALLBACK_CONTINUE Demo.importer_world)
    as Hskip by reflexivity.
  split; [reflexivity|]. split; [exact Hrun|]. split; [exact Hskip|].
  split.
  - exact (one_call_iff_capability_implemented Demo.importer_world 1
             CALLBACK_MSG_IMPORT_MODULE 200 7 importer_container _ _
             eq_refl Hrun).
  - exact (one_call_iff_capability_implemented Demo.importer_world 1
             CALLBACK_MSG_MODULE_IMPORTED 200 7 importer_container _ _
             eq_refl Hskip).
Defined.

Lemma scanCallbackFunc_crashes_witness :
  container_of Demo.importer_world 7 = Some importer_container
  ∧ ¬ can_allocate Demo.importer_world (replicate 32 Byte.xff)
  ∧ scanCallbackFunc Demo.importer_world 1 CALLBACK_MSG_IMPORT_MODULE 203 7
    = Crashed
  ∧ scanCallbackFunc Demo.importer_world 1 CALLBACK_MSG_IMPORT_MODULE 204 7
    = Crashed.
Proof.
  assert (¬ can_allocate Demo.importer_world (replicate 32 Byte.xff))
    as Hfull by (unfold can_allocate; simpl; lia).
  split; [reflexivity|]. split; [exact Hfull|]. split.
  - apply scanCallbackFunc_crashes.
    exists importer_container, Demo.importer_ImportModule.
    split; [reflexivity|]. split; [reflexivity|]. split; [reflexivity|].
    simpl. split; [discriminate|exact Hfull].
  - apply scanCallbackFunc_crashes.
    exists importer_container, Demo.importer_ImportModule.
    split; [reflexivity|]. split; [reflexivity|]. split; [reflexivity|].
    exact I.
Defined.

Local Abbreviation importer_events :=
  [Demo.import_pe; Demo.import_bad; Demo.scan_finished].

Lemma importer_events_run :
  dispatch_all importer_events Demo.importer_world
  = Some ([CALLBACK_CONTINUE; CALLBACK_ERROR; CALLBACK_ABORT],
          Demo.after Demo.after_bad Demo.scan_finished).
Proof. reflexivity. Qed.

Lemma scan_keeps_tracked_buffers_distinct_and_live_witness :
  heap_ok (heap Demo.importer_world)
  ∧ all_fresh Demo.importer_world
  ∧ dispatch_all importer_events Demo.importer_world
    = Some ([CALLBACK_CONTINUE; CALLBACK_ERROR; CALLBACK_ABORT],
            Demo.after Demo.after_bad Demo.scan_finished)
  ∧ tracked (Demo.after Demo.after_bad Demo.scan_finished) 7 = [1; 4]
  ∧ NoDup [1; 4]
  ∧ is_Some (CHeap.blocks (heap (Demo.after Demo.after_bad Demo.scan_finished)) !! 4).
Proof.
  split; [exact importer_world_heap_ok|].
  split; [exact importer_world_all_fresh|].
  split; [exact importer_events_run|].
  split; [reflexivity|].
  destruct (scan_keeps_tracked_buffers_distinct_and_live importer_events
              Demo.importer_world _ _ importer_world_heap_ok
              importer_world_all_fresh importer_events_run)
    as (_ & _ & Hall).
  destruct (Hall 7 (mkContainer (with_self Demo.importer 3%nat) [1; 4] true)
              eq_refl) as (Hnd & Hlive).
  split; [exact Hnd|].
  apply Hlive. right. left.
Defined.

Lemma finalize_after_scan_restores_heap_witness :
  tracked_ok Demo.importer_world
  ∧ tracked Demo.importer_world 7 = []
  ∧ Forall (λ e, ev_userData e = 7) importer_events
  ∧ dispatch_all importer_events Demo.importer_world
    = Some ([CALLBACK_CONTINUE; CALLBACK_ERROR; CALLBACK_ABORT],
            Demo.after Demo.after_bad Demo.scan_finished)
  ∧ CHeap.blocks
      (heap (finalize_registered
               (Demo.after Demo.after_bad Demo.scan_finished) 7))
    = ∅
  ∧ CHeap.freed
      (heap (finalize_registered
               (Demo.after Demo.after_bad Demo.scan_finished) 7))
    = [1; 4].
Proof.
  assert (tracked_ok Demo.importer_world) as Hok
    by (apply all_fresh_tracked_ok;
        [exact importer_world_heap_ok|exact importer_world_all_fresh]).
  assert (Forall (λ e, ev_userData e = 7) importer_events) as Htok
    by (repeat constructor).
  split; [exact Hok|]. split; [reflexivity|]. split; [exact Htok|].
  split; [exact importer_events_run|].
  destruct (finalize_after_scan_restores_heap importer_events 7
              Demo.importer_world _ _ Hok eq_refl Htok importer_events_run)
    as (Hblocks & Hfreed & _).
  split; [exact Hblocks|exact Hfreed].
Defined.

Lemma two_importers_after_tracked_ok : tracked_ok Demo.two_importers_after.
Proof.
  apply (scanCallbackFunc_tracked_ok (Demo.after Demo.two_importers Demo.import_pe)
           1 CALLBACK_MSG_IMPORT_MODULE 201 9 CALLBACK_ERROR);
    [reflexivity|].
  apply (scanCallbackFunc_tracked_ok Demo.two_importers 1
           CALLBACK_MSG_IMPORT_MODULE 200 7 CALLBACK_CONTINUE);
    [reflexivity|].
  apply all_fresh_tracked_ok; [|exact two_importers_all_fresh].
  intros p [bs Hp]. simpl in Hp. by rewrite lookup_empty in Hp.
Qed.

Lemma finalize_spares_other_containers_witness :
  tracked_ok Demo.two_importers_after
  ∧ tracked Demo.two_importers_after 7 = [1]
  ∧ tracked Demo.two_importers_after 9 = [4]
  ∧ CHeap.blocks (heap (finalize_registered Demo.two_importers_after 7)) !! 1
    = None
  ∧ CHeap.blocks (heap (finalize_registered Demo.two_importers_after 7)) !! 4
    = Some [Byte.x41].
Proof.
  split; [exact two_importers_after_tracked_ok|].
  split; [reflexivity|]. split; [reflexivity|]. split; [reflexivity|].
  destruct (finalize_spares_other_containers Demo.two_importers_after 7
              two_importers_after_tracked_ok) as (_ & Hother).
  destruct (Hother 9 (mkContainer (with_self Demo.importer 1%nat) [4] true) 4
              ltac:(discriminate) eq_refl ltac:(left)) as (_ & _ & Hsame).
  exact (eq_trans Hsame eq_refl).
Defined.

Lemma import_after_finalize_has_no_finalizer_witness :
  container_of Demo.after_pe 7
  = Some (mkContainer (with_self Demo.importer 1%nat) [1] true)
  ∧ imports Demo.after_pe !! 201 = Some (mkModuleImport "bad" NULL 0)
  ∧ Demo.importer_ImportModule s1 "bad" 1%nat
    = (2%nat, ([Byte.x41], true, Some "boom"%string))
  ∧ can_allocate (finalize_registered Demo.after_pe 7) [Byte.x41]
  ∧ ∃ w' cbc' p,
      scanCallbackFunc (finalize_registered Demo.after_pe 7) 1
        CALLBACK_MSG_IMPORT_MODULE 201 7
      = Returned CALLBACK_ERROR w'
      ∧ container_of w' 7 = Some cbc'
      ∧ cdata cbc' = [p]
      ∧ finalizer cbc' = false.
Proof.
  assert (can_allocate (finalize_registered Demo.after_pe 7) [Byte.x41])
    as Hfit by (unfold can_allocate; vm_compute; lia).
  split; [reflexivity|]. split; [reflexivity|]. split; [reflexivity|].
  split; [exact Hfit|].
  destruct (import_after_finalize_has_no_finalizer Demo.after_pe 1 201 7
              (mkContainer (with_self Demo.importer 1%nat) [1] true)
              Demo.importer_ImportModule (mkModuleImport "bad" NULL 0)
              2%nat [Byte.x41] true (Some "boom"%string)
              eq_refl eq_refl eq_refl eq_refl ltac:(discriminate) Hfit)
    as (w' & cbc' & p & Hrun & Hc & Hcd & Hfin & _).
  exists w', cbc', p. split; [exact Hrun|]. split; [exact Hc|].
  split; [exact Hcd|exact Hfin].
Defined.

Lemma recorder_scan_always_continues_witness :
  container_of Demo.recorder_world 7
  = Some (makeScanCallbackContainer
            (MatchRules_callback Demo.Identifier Demo.Namespace Demo.Tags
               Demo.Metas Demo.getMatchStrings []))
  ∧ Forall (λ e, ev_userData e = 7) Demo.recorder_events
  ∧ ∃ w',
      dispatch_all Demo.recorder_events Demo.recorder_world
      = Some ([CALLBACK_CONTINUE; CALLBACK_CONTINUE; CALLBACK_CONTINUE;
               CALLBACK_CONTINUE], w')
      ∧ receiver w' 7
        = Some [ record_of Demo.Identifier Demo.Namespace Demo.Tags
                   Demo.Metas Demo.getMatchStrings (s1, mkRule 100);
                 record_of Demo.Identifier Demo.Namespace Demo.Tags
                   Demo.Metas Demo.getMatchStrings (s1, mkRule 101) ].
Proof.
  assert (Forall (λ e, ev_userData e = 7) Demo.recorder_events) as Htok
    by (repeat constructor).
  split; [reflexivity|]. split; [exact Htok|].
  destruct (recorder_scan_always_continues Demo.Identifier Demo.Namespace
              Demo.Tags Demo.Metas Demo.getMatchStrings Demo.recorder_events
              7 Demo.recorder_world _ [] eq_refl eq_refl Htok)
    as (w' & Hrun & Hrecv & _).
  exists w'. split; [exact Hrun|exact Hrecv].
Defined.

Lemma recorded_metadata_has_no_int_witness :
  let rec :=
    {| mr_Rule := "oversized"; mr_Namespace := "default"; mr_Tags := [];
       mr_Meta := convert_metas (Demo.Metas (mkRule 101));
       mr_Strings := @nil Demo.MatchString |} in
  last (Demo.recorder s1 (mkRule 101) []).1 = Some rec
  ∧ dom (mr_Meta rec) = dom (Demo.Metas (mkRule 101))
  ∧ mr_Meta rec !! "score"%string = Some (VInt32 (-2147483648))
  ∧ ∀ i, VInt32 (-2147483648) ≠ VInt i.
Proof.
  intros rec.
  assert (last (Demo.recorder s1 (mkRule 101) []).1 = Some rec)
    as Hlast by reflexivity.
  assert (mr_Meta rec !! "score"%string = Some (VInt32 (-2147483648)))
    as Hscore by (vm_compute; reflexivity).
  destruct (recorded_metadata_has_no_int Demo.Identifier Demo.Namespace
              Demo.Tags Demo.Metas Demo.getMatchStrings s1 (mkRule 101) []
              rec Hlast) as (Hdom & Hnoint).
  split; [exact Hlast|]. split; [exact Hdom|]. split; [exact Hscore|].
  exact (Hnoint "score"%string _ Hscore).
Defined.

Lemma int32_identifies_integers_modulo_2_32_witness :
  ((4294967301 - 5) mod 2 ^ 32 = 0
   ∧ int32 4294967301 = int32 5
   ∧ int32 4294967301 = 5)%Z.
Proof.
  assert ((4294967301 - 5) mod 2 ^ 32 = 0)%Z as Hmod by reflexivity.
  destruct (int32_identifies_integers_modulo_2_32 4294967301 5)
    as (Hiff & _ & _).
  split; [exact Hmod|]. split; [exact (proj2 Hiff Hmod)|]. reflexivity.
Defined.

End MoreScenarios.
